(** * Presence registry and chat relay of the socket server

    A shallow embedding of the four socket handlers of the server
    ([newUser], [disconnect], [chat:message], [leave-call]) together with
    the part of [apiClient] they depend on, followed by the properties of
    the room registry that the handlers establish.

    Conventions of the embedding.
    - A JavaScript string is a [string]; each character stands for one code
      unit below 256.  [undefined]/[null] for an optional field is [None].
    - [onlineUsersByRoom] is an object used as a dictionary from room id to
      an array of users.  It is an association list kept in the order in
      which [for ... in] enumerates the keys: array-index keys first, in
      ascending numeric order, then the other keys in creation order.
      Reading [onlineUsersByRoom[roomId]] finds the own property and,
      failing that, the member of [Object.prototype] of that name.
    - An event may come without a payload; destructuring the absent
      payload throws.
    - A handler runs to completion on the registry it is given: the
      [await] of a backend call is answered on the spot, by the
      environment, which also supplies the reading of the clock.  No other
      event is handled while a call is pending.
    - An emit carries the array as it is at that moment. *)

From Stdlib Require Import Ascii String NArith Lia.
From stdpp Require Import base tactics option list strings.

Local Open Scope string_scope.
Local Open Scope list_scope.
Local Open Scope nat_scope.

(** ** Strings *)

Module Js.

(** Code units below 256 that [String.prototype.trim] strips: TAB, LF, VT,
    FF, CR, SP and NBSP. *)
Definition isWhiteSpace (c : ascii) : bool :=
  let n := N_of_ascii c in
  ((9 <=? n) && (n <=? 13) || (n =? 32) || (n =? 160))%N.

Fixpoint trimStart (s : string) : string :=
  match s with
  | EmptyString => EmptyString
  | String c s' => if isWhiteSpace c then trimStart s' else s
  end.

Definition trimEnd (s : string) : string :=
  String.rev (trimStart (String.rev s)).

Definition trim (s : string) : string := trimEnd (trimStart s).

(** Truthiness of a string value: only the empty string is falsy. *)
Definition truthy (s : string) : bool :=
  match s with EmptyString => false | String _ _ => true end.

(** Truthiness of a possibly missing string. *)
Definition truthy_opt (o : option string) : bool :=
  match o with Some s => truthy s | None => false end.

(** [Array.prototype.findIndex], [find], [some], [filter], [map], [push]
    and assignment at an index, on lists. *)
Section Arrays.
Context {A : Type} (P : A → Prop) `{!∀ x, Decision (P x)}.

Definition findIndex (l : list A) : option nat := fst <$> list_find P l.
Definition find (l : list A) : option A := snd <$> list_find P l.
Definition some (l : list A) : bool := bool_decide (Exists P l).
End Arrays.

Definition push {A} (l : list A) (x : A) : list A := l ++ [x].

(** *** Property order of an object *)

Definition digit (c : ascii) : option N :=
  let n := N_of_ascii c in
  if ((48 <=? n) && (n <=? 57))%N then Some (n - 48)%N else None.

Fixpoint digits (acc : N) (s : string) : option N :=
  match s with
  | EmptyString => Some acc
  | String c s' =>
      match digit c with
      | Some d => digits (acc * 10 + d)%N s'
      | None => None
      end
  end.

(** A key is an array index when it is the canonical decimal numeral of an
    integer in [0, 2^32 - 2]. *)
Definition arrayIndex (k : string) : option N :=
  match k with
  | EmptyString => None
  | String c rest =>
      if Ascii.eqb c "0" && truthy rest then None
      else match digits 0 k with
           | Some n => if (n <=? 4294967294)%N then Some n else None
           | None => None
           end
  end.

(** An object used as a dictionary, as the list of its properties. *)
Abbreviation Obj V := (list (string * V)) (only parsing).

Section Objects.
Context {V : Type}.

(** [obj[k]] *)
Fixpoint get (k : string) (o : Obj V) : option V :=
  match o with
  | [] => None
  | (k', v) :: o' => if decide (k' = k) then Some v else get k o'
  end.

(** Assignment to an existing property keeps its place. *)
Fixpoint replace (k : string) (v : V) (o : Obj V) : Obj V :=
  match o with
  | [] => []
  | (k', v') :: o' =>
      if decide (k' = k) then (k, v) :: o' else (k', v') :: replace k v o'
  end.

(** A new array-index property is enumerated before every larger index
    and before every other key. *)
Fixpoint defineIndex (n : N) (k : string) (v : V) (o : Obj V) : Obj V :=
  match o with
  | [] => [(k, v)]
  | (k', v') :: o' =>
      match arrayIndex k' with
      | Some n' =>
          if (n' <? n)%N then (k', v') :: defineIndex n k v o'
          else (k, v) :: o
      | None => (k, v) :: o
      end
  end.

Definition define (k : string) (v : V) (o : Obj V) : Obj V :=
  match arrayIndex k with
  | Some n => defineIndex n k v o
  | None => o ++ [(k, v)]
  end.

(** [obj[k] = v] *)
Definition set (k : string) (v : V) (o : Obj V) : Obj V :=
  match get k o with
  | Some _ => replace k v o
  | None => define k v o
  end.

(** The keys, in the order [for (const k in obj)] visits them. *)
Definition keys (o : Obj V) : list string := o.*1.
End Objects.
#[global] Arguments trim : simpl never.
#[global] Arguments findIndex : simpl never.
#[global] Arguments find : simpl never.
#[global] Arguments some : simpl never.

End Js.

(** ** Data *)

(** An entry of a room's array: [{ socketId, userId, name, photo }]. *)
Record OnlineUser := {
  socketId : string;
  userId : string;
  name : option string;
  photo : option string;
}.

#[global] Instance OnlineUser_eq_dec : EqDecision OnlineUser.
Proof. solve_decision. Defined.

(** [onlineUsersByRoom] *)
Abbreviation Registry := (Js.Obj (list OnlineUser)) (only parsing).

(** The payload of [newUser]; a missing field is [None]. *)
Record UserData := {
  ud_userId : option string;
  ud_name : option string;
  ud_photo : option string;
  ud_roomId : option string;
}.

(** [ChatMessagePayload] *)
Record ChatMessagePayload := {
  cm_userId : string;
  cm_message : option string;
  cm_timestamp : option string;
}.

(** The object built by the chat handler. *)
Record OutgoingMessage := {
  out_userId : string;
  out_message : string;
  out_timestamp : string;
  out_name : option string;
  out_photo : option string;
}.

#[global] Instance OutgoingMessage_eq_dec : EqDecision OutgoingMessage.
Proof. solve_decision. Defined.

(** The body of a participant request: [{ meetingId, userId, name }]. *)
Record Participant := {
  meetingId : string;
  p_userId : string;
  p_name : option string;
}.

#[global] Instance Participant_eq_dec : EqDecision Participant.
Proof. solve_decision. Defined.

(** What a handler does to the outside, in the order it does it. *)
Inductive Effect :=
  | Fetch (method path : string) (body : Participant)
  | SocketJoin (sid roomId : string)
  | SocketLeave (sid roomId : string)
  | EmitUsersOnline (roomId : string) (users : list OnlineUser)
  | EmitChatMessage (roomId : string) (msg : OutgoingMessage)
  | LogRelayedChat (msg : OutgoingMessage)
  | LogUser (uid : string).

#[global] Instance Effect_eq_dec : EqDecision Effect.
Proof. solve_decision. Defined.

Definition addParticipant : string := "/api/v1/meetings/add-participant".
Definition removeParticipant : string := "/api/v1/meetings/remove-participant".

(** ** The backend client

    [apiClient.request] awaits [fetch], throws when the response is not ok
    and otherwise returns the parsed body, which no handler looks at.
    [fetch] itself rejects on a network failure. *)

Inductive FetchResult := NetworkError | Response (ok : bool).

(** The surroundings of a handler: the backend and the clock. *)
Record Env := {
  fetch : string → string → Participant → FetchResult;
  now : string;
}.

(** ** Handlers

    A handler either returns or throws (for an [async] handler: its promise
    is rejected).  Nothing in the handlers catches, so a throw ends the
    handler; what it did to the registry and to the outside before stays. *)

Inductive Outcome (A : Type) := Returned (a : A) | Thrown.
Arguments Returned {A} a.
Arguments Thrown {A}.

Record Run (A : Type) := {
  outcome : Outcome A;
  registry : Registry;
  effects : list Effect;
}.
Arguments outcome {A} r.
Arguments registry {A} r.
Arguments effects {A} r.

Definition Handler (A : Type) : Type := Env → Registry → Run A.

#[global] Instance Handler_ret : MRet Handler := λ A a _ reg,
  {| outcome := Returned a; registry := reg; effects := [] |}.

#[global] Instance Handler_bind : MBind Handler := λ A B k m env reg,
  let r := m env reg in
  match outcome r with
  | Returned a =>
      let r' := k a env (registry r) in
      {| outcome := outcome r';
         registry := registry r';
         effects := effects r ++ effects r' |}
  | Thrown =>
      {| outcome := Thrown; registry := registry r; effects := effects r |}
  end.

(** [throw new TypeError(...)], as the engine does when a property of
    [undefined] is read or what is called is not a function. *)
Definition throwTypeError {A : Type} : Handler A := λ _ reg,
  {| outcome := Thrown; registry := reg; effects := [] |}.

(** The names of the members of [Object.prototype], which every object
    created as [{}] inherits.  All of them are truthy: functions, and for
    [__proto__] the prototype itself. *)
Definition objectPrototype : list string :=
  ["constructor"; "__defineGetter__"; "__defineSetter__"; "hasOwnProperty";
   "__lookupGetter__"; "__lookupSetter__"; "isPrototypeOf";
   "propertyIsEnumerable"; "toString"; "valueOf"; "__proto__";
   "toLocaleString"].

Definition inherited (k : string) : bool :=
  bool_decide (k ∈ objectPrototype).

(** What [obj[k]] evaluates to: the own property, else the inherited
    member, else [undefined]. *)
Inductive Read (V : Type) := Own (v : V) | Inherited | Undefined.
Arguments Own {V} v.
Arguments Inherited {V}.
Arguments Undefined {V}.

Definition read {V : Type} (k : string) (o : Js.Obj V) : Read V :=
  match Js.get k o with
  | Some v => Own v
  | None => if inherited k then Inherited else Undefined
  end.

(** [onlineUsersByRoom[roomId]] *)
Definition getRoom (roomId : string) : Handler (Read (list OnlineUser)) :=
  λ _ reg,
  {| outcome := Returned (read roomId reg); registry := reg; effects := [] |}.

(** The receiver of [users.findIndex(...)], [users.find(...)] or
    [users.filter(...)]: an array has these methods; a member of
    [Object.prototype] has none of them and [undefined] has no
    properties, so the call throws. *)
Definition asArray (room : Read (list OnlineUser))
    : Handler (list OnlineUser) :=
  match room with
  | Own users => mret users
  | Inherited | Undefined => throwTypeError
  end.

(** The array handed to [emit] or asked for its [length]. *)
Definition listed (room : Read (list OnlineUser)) : list OnlineUser :=
  match room with
  | Own users => users
  | Inherited | Undefined => []
  end.

(** [onlineUsersByRoom[roomId] = users] *)
Definition setRoom (roomId : string) (users : list OnlineUser) : Handler unit :=
  λ _ reg,
  {| outcome := Returned (); registry := Js.set roomId users reg;
     effects := [] |}.

(** Reading [onlineUsersByRoom] as a whole. *)
Definition readRegistry : Handler Registry := λ _ reg,
  {| outcome := Returned reg; registry := reg; effects := [] |}.

(** The keys a [for ... in] over [onlineUsersByRoom] is going to visit. *)
Definition roomIds : Handler (list string) :=
  reg ← readRegistry; mret (Js.keys reg).

Definition perform (e : Effect) : Handler unit := λ _ reg,
  {| outcome := Returned (); registry := reg; effects := [e] |}.

(** [new Date().toISOString()] *)
Definition toISOString : Handler string := λ env reg,
  {| outcome := Returned (now env); registry := reg; effects := [] |}.

(** [apiClient.request(method, path, body)] *)
Definition request (method path : string) (body : Participant) : Handler unit :=
  λ env reg,
  {| outcome :=
       match fetch env method path body with
       | Response true => Returned ()
       | Response false | NetworkError => Thrown
       end;
     registry := reg;
     effects := [Fetch method path body] |}.

(** [apiClient.post(path, body)] *)
Definition post (path : string) (body : Participant) : Handler unit :=
  request "POST" path body.

(** [for (const k in obj) body]: the keys are visited in turn; a throw in
    the body leaves the loop and the handler. *)
Fixpoint forIn (ks : list string) (body : string → Handler unit) : Handler unit :=
  match ks with
  | [] => mret ()
  | k :: ks' => body k;; forIn ks' body
  end.

(** *** [socket.on("newUser", ...)] *)

(** [{ socketId: socket.id, userId, name, photo }] *)
Definition entryOf (sid uid : string) (userData : UserData) : OnlineUser :=
  {| socketId := sid; userId := uid;
     name := ud_name userData; photo := ud_photo userData |}.

(** [users.map(user => user.userId === userId ? entry : user)] *)
Definition rewriteUser (uid : string) (entry : OnlineUser)
    (users : list OnlineUser) : list OnlineUser :=
  (λ user, if decide (userId user = uid) then entry else user) <$> users.

(** The handler from its first statement on, [userData] being an object. *)
Definition newUser (sid : string) (userData : UserData) : Handler unit :=
  match ud_userId userData, ud_roomId userData with
  | Some uid, Some roomId =>
      if negb (Js.truthy uid) || negb (Js.truthy roomId) then mret ()
      else
        room ← getRoom roomId;
        (if room is Undefined then setRoom roomId [] else mret ());;
        room ← getRoom roomId;
        users ← asArray room;
        match Js.findIndex (λ user, socketId user = sid) users with
        | Some existingUserIndex =>
            setRoom roomId
              (<[existingUserIndex := entryOf sid uid userData]> users)
        | None =>
            if negb (Js.some (λ user, userId user = uid) users) then
              setRoom roomId (Js.push users (entryOf sid uid userData));;
              post addParticipant
                {| meetingId := roomId; p_userId := uid;
                   p_name := ud_name userData |}
            else
              setRoom roomId
                (rewriteUser uid (entryOf sid uid userData) users)
        end;;
        perform (SocketJoin sid roomId);;
        room ← getRoom roomId;
        perform (EmitUsersOnline roomId (listed room))
  | _, _ => mret ()
  end.

(** The handler as the socket calls it: [const { userId, name, photo,
    roomId } = userData] throws when the event came without a payload. *)
Definition onNewUser (sid : string) (userData : option UserData)
    : Handler unit :=
  match userData with
  | Some userData => newUser sid userData
  | None => throwTypeError
  end.

(** *** [socket.on("disconnect", ...)] *)
Definition disconnectRoom (sid roomId : string) : Handler unit :=
  room ← getRoom roomId;
  users ← asArray room;
  let userToRemove := Js.find (λ u, socketId u = sid) users in
  let before := length users in
  setRoom roomId (filter (λ u, socketId u ≠ sid) users);;
  room ← getRoom roomId;
  let users := listed room in
  if decide (before ≠ length users) then
    (if userToRemove is Some u then
       post removeParticipant
         {| meetingId := roomId; p_userId := userId u; p_name := name u |}
     else mret ());;
    perform (EmitUsersOnline roomId users)
  else mret ().

Definition disconnect (sid : string) : Handler unit :=
  ks ← roomIds;
  forIn ks (disconnectRoom sid).

(** *** [socket.on("chat:message", ...)] *)

(** The loop that looks for the sender and its room, with its [break]. *)
Fixpoint findSender (sid : string) (ks : list string) (reg : Registry)
    : option (string * OnlineUser) :=
  match ks with
  | [] => None
  | rid :: ks' =>
      match Js.find (λ u, socketId u = sid) (default [] (Js.get rid reg)) with
      | Some found => Some (rid, found)
      | None => findSender sid ks' reg
      end
  end.

Definition chatMessage (sid : string) (payload : option ChatMessagePayload)
    : Handler unit :=
  match payload with
  | None => mret ()
  | Some payload =>
      match Js.trim <$> cm_message payload with
      | None => mret ()
      | Some trimmedMessage =>
          if negb (Js.truthy trimmedMessage) then mret ()
          else
            ks ← roomIds;
            reg ← readRegistry;
            let found := findSender sid ks reg in
            let sender := snd <$> found in
            let senderRoomId := fst <$> found in
            timestamp ←
              (if cm_timestamp payload is Some t then mret t else toISOString);
            let outgoingMessage :=
              {| out_userId := cm_userId payload;
                 out_message := trimmedMessage;
                 out_timestamp := timestamp;
                 out_name := sender ≫= name;
                 out_photo := sender ≫= photo |} in
            (if Js.truthy_opt senderRoomId then
               perform (EmitChatMessage (default "" senderRoomId)
                          outgoingMessage)
             else mret ());;
            perform (LogRelayedChat outgoingMessage)
      end
  end.

(** *** [socket.on("leave-call", ...)] *)

(** The payload of the event: [{ roomId }]. *)
Record LeavePayload := { lp_roomId : option string }.

(** The handler body, [roomId] being the field of the payload. *)
Definition leaveCall (sid : string) (roomId : option string) : Handler unit :=
  match roomId with
  | None => mret ()
  | Some roomId =>
      if negb (Js.truthy roomId) then mret ()
      else
        room ← getRoom roomId;
        match room with
        | Undefined => mret ()
        | Own _ | Inherited =>
            users ← asArray room;
            let userToRemove := Js.find (λ u, socketId u = sid) users in
            setRoom roomId (filter (λ u, socketId u ≠ sid) users);;
            (if userToRemove is Some u then
               post removeParticipant
                 {| meetingId := roomId; p_userId := userId u;
                    p_name := name u |};;
               perform (LogUser (userId u))
             else mret ());;
            perform (SocketLeave sid roomId);;
            room ← getRoom roomId;
            perform (EmitUsersOnline roomId (listed room))
        end
  end.

(** The handler as the socket calls it: the parameter pattern
    [({ roomId })] throws when the event came without a payload. *)
Definition onLeaveCall (sid : string) (payload : option LeavePayload)
    : Handler unit :=
  match payload with
  | Some payload => leaveCall sid (lp_roomId payload)
  | None => throwTypeError
  end.

(** ** Events and reachable states *)

(** What a connection can send: [newUser] with a payload or with none,
    [chat:message], [leave-call] with a payload [{ roomId }] or with none,
    and its disconnection. *)
Inductive Event :=
  | Join (sid : string) (userData : UserData)
  | JoinBare (sid : string)
  | Disconnect (sid : string)
  | Chat (sid : string) (payload : option ChatMessagePayload)
  | Leave (sid : string) (roomId : option string)
  | LeaveBare (sid : string).

Definition handle (e : Event) : Handler unit :=
  match e with
  | Join sid userData => onNewUser sid (Some userData)
  | JoinBare sid => onNewUser sid None
  | Disconnect sid => disconnect sid
  | Chat sid payload => chatMessage sid payload
  | Leave sid roomId => onLeaveCall sid (Some {| lp_roomId := roomId |})
  | LeaveBare sid => onLeaveCall sid None
  end.

(** The registry starts empty and changes only through the handlers,
    whatever the backend answers. *)
Inductive reachable : Registry → Prop :=
  | reachable_start : reachable []
  | reachable_handle reg env e :
      reachable reg → reachable (registry (handle e env reg)).

(** Events delivered one after the other, each with its own surroundings.
    A handler that throws does not stop the server: the next event is
    handled on the registry the failed handler left. *)
Fixpoint deliver (es : list (Env * Event)) (reg : Registry)
    : Registry * list Effect :=
  match es with
  | [] => (reg, [])
  | (env, e) :: es' =>
      let r := handle e env reg in
      let '(reg', effs) := deliver es' (registry r) in
      (reg', effects r ++ effs)
  end.

(** The keys of an object are distinct, and no room id is falsy. *)
Definition wf (reg : Registry) : Prop :=
  NoDup (Js.keys reg) ∧ Forall (λ k, Js.truthy k = true) (Js.keys reg).

(** The connection is in the room's array. *)
Definition hasSocket (sid : string) (users : list OnlineUser) : Prop :=
  Exists (λ u, socketId u = sid) users.

(** The array without the entries of the connection. *)
Definition withoutSocket (sid : string) (users : list OnlineUser)
    : list OnlineUser :=
  filter (λ u, socketId u ≠ sid) users.

(** The rooms whose array holds the connection, in enumeration order. *)
Definition roomsOf (sid : string) (reg : Registry) : list string :=
  (filter (λ kv, hasSocket sid kv.2) reg).*1.

(** The backend calls among the effects. *)
Definition isFetch (e : Effect) : bool :=
  match e with Fetch _ _ _ => true | _ => false end.

Definition fetches (effs : list Effect) : list Effect :=
  filter (λ e, isFetch e = true) effs.
#[global] Arguments fetches : simpl never.
#[global] Arguments withoutSocket : simpl never.
#[global] Arguments rewriteUser : simpl never.

(** The number of entries in the whole registry. *)
Definition population (reg : Registry) : nat :=
  sum_list (length <$> reg.*2).

(** The registry once every room has dropped the connection. *)
Definition cleaned (sid : string) (reg : Registry) : Registry :=
  prod_map id (withoutSocket sid) <$> reg.

(** How a room's entry may differ after a disconnect of [sid]: not at all,
    or by the entries of [sid] being gone. *)
Definition swept (sid : string) (kv kv' : string * list OnlineUser) : Prop :=
  kv'.1 = kv.1 ∧ (kv'.2 = kv.2 ∨ kv'.2 = withoutSocket sid kv.2).



(** The room holds exactly one entry of the user, [e], and its other
    entries were already in [users0]. *)
Definition settled (uid : string) (users0 : list OnlineUser) (e : OnlineUser)
    (users : list OnlineUser) : Prop :=
  filter (λ u, userId u = uid) users = [e] ∧
  ∀ u, u ∈ users → userId u ≠ uid → u ∈ users0.

(** The run that does nothing at all. *)
Definition idle (reg : Registry) : Run unit :=
  {| outcome := Returned (); registry := reg; effects := [] |}.

(** The run that throws before it has done anything. *)
Definition refused (reg : Registry) : Run unit :=
  {| outcome := Thrown; registry := reg; effects := [] |}.

(** ** Sample surroundings, payloads and states *)

(** A backend that accepts every request. *)
Definition backendUp : Env :=
  {| fetch := λ _ _ _, Response true; now := "2024-01-01T00:00:00.000Z" |}.

(** A backend that answers every request with an error status. *)
Definition backendRefuses : Env :=
  {| fetch := λ _ _ _, Response false; now := "2024-01-01T00:00:00.000Z" |}.


(** A backend that cannot be reached. *)
Definition backendDown : Env :=
  {| fetch := λ _ _ _, NetworkError; now := "2024-01-01T00:00:00.000Z" |}.

Definition joinData (uid nm roomId : string) : UserData :=
  {| ud_userId := Some uid; ud_name := Some nm; ud_photo := None;
     ud_roomId := Some roomId |}.

Definition member (sid uid nm : string) : OnlineUser :=
  {| socketId := sid; userId := uid; name := Some nm; photo := None |}.

(** Connection [c1] has joined rooms [R1] and [R2] as user [A]. *)
Definition inTwoRooms : Registry :=
  (deliver [(backendUp, Join "c1" (joinData "A" "Ann" "R1"));
            (backendUp, Join "c1" (joinData "A" "Ann" "R2"))] []).1.

(** User [B] is in room [R2] as [Bea] on connection [c7]. *)
Definition beaInR2 : Registry := [("R2", [member "c7" "B" "Bea"])].


(** Within every room a user id occurs once. *)
Definition userIdsUnique (reg : Registry) : Prop :=
  ∀ rid users, (rid, users) ∈ reg → NoDup (userId <$> users).

(** [c1] joined [R] as [A] and [c2] joined [R] as [B]. *)
Definition twoUsers : Registry :=
  (deliver [(backendUp, Join "c1" (joinData "A" "Ann" "R"));
            (backendUp, Join "c2" (joinData "B" "Bea" "R"))] []).1.


(** The rooms named by the backend calls among the effects, in the order
    of the calls. *)
Definition callRoom (e : Effect) : option string :=
  match e with
  | Fetch _ _ body => Some (meetingId body)
  | _ => None
  end.

Definition calledRooms (effs : list Effect) : list string :=
  omap callRoom effs.


(** ** Process start: the allowed origins *)

(** [String.prototype.split] with a separator of one character. *)
Fixpoint splitOn (sep : ascii) (s : string) : list string :=
  match s with
  | EmptyString => [EmptyString]
  | String c s' =>
      if Ascii.eqb c sep then EmptyString :: splitOn sep s'
      else match splitOn sep s' with
           | [] => [String c EmptyString]
           | piece :: pieces => String c piece :: pieces
           end
  end.

(** [(process.env.ORIGIN ?? "").split(",").map(s => s.trim())
      .filter(Boolean)] *)
Definition origins (ORIGIN : option string) : list string :=
  filter (λ s, Js.truthy s = true)
    (Js.trim <$> splitOn "," (default "" ORIGIN)).

(** [Array.prototype.join] *)
Fixpoint joinWith (sep : string) (pieces : list string) : string :=
  match pieces with
  | [] => ""
  | [piece] => piece
  | piece :: pieces' => piece +:+ sep +:+ joinWith sep pieces'
  end.

(** The characters of a string. *)
Definition chars (s : string) : list ascii := list_ascii_of_string s.

(** Only white space, if anything. *)
Definition blank (s : string) : Prop :=
  Forall (λ c, Js.isWhiteSpace c = true) (chars s).

(** An origin as [origins] delivers them: not empty, nothing to trim, no
    comma. *)
Definition tidy (s : string) : Prop :=
  s ≠ "" ∧ Js.trim s = s ∧ ","%char ∉ chars s.

(** An origin written with white space around it. *)
Record Padded := { pad_before : string; origin : string; pad_after : string }.

Definition written (p : Padded) : string :=
  pad_before p +:+ origin p +:+ pad_after p.

(** [trimStart] on the characters of a string. *)
Fixpoint dropWs (l : list ascii) : list ascii :=
  match l with
  | [] => []
  | c :: l' => if Js.isWhiteSpace c then dropWs l' else l
  end.

(** [trim] on the characters of a string. *)
Definition trimmed (l : list ascii) : list ascii :=
  reverse (dropWs (reverse (dropWs l))).

(** Nothing to drop at either end. *)
Definition neat (l : list ascii) : Prop :=
  dropWs l = l ∧ dropWs (reverse l) = reverse l.

(** ** The backend client in full

    [fetchClient.ts] builds the request, hands it to [fetch] and turns the
    response into a value or an exception.  The body type [B] and its
    [JSON.stringify], the type [J] of parsed responses with its empty
    object [{}], and the reading of [err.message] are taken as given. *)

Module ApiClient.

(** [process.env.BACKEND_USER_URL ?? "http://localhost:3000"] *)
Definition API_URL (BACKEND_USER_URL : option string) : string :=
  default "http://localhost:3000" BACKEND_USER_URL.

(** The second argument of [fetch]. *)
Record RequestInit := {
  ri_method : string;
  ri_headers : list (string * string);
  ri_body : option string;
  ri_credentials : string;
}.

(** What reading [err.message] gives: an exception when [err] is [null];
    nothing, or a falsy value that is not a string; a string; or a truthy
    value that is not a string, given by what [new Error(...)] makes of
    it: the text it converts to (the empty text for [[]]), or nothing
    when the conversion throws. *)
Inductive MessageRead :=
  | ReadThrows
  | NoMessage
  | Message (s : string)
  | OtherMessage (text : option string).

(** What [fetch] and [response.json()] come to: [fetch] rejects, or there
    is a response with its [ok] flag and a body that parses or does not. *)
Inductive NetResult (J : Type) :=
  | NetRejects
  | NetResponds (ok : bool) (json : option J).
Arguments NetRejects {J}.
Arguments NetResponds {J} ok json.

(** What the promise of [request] settles to. *)
Inductive Failure := FetchFailed | TypeError | Error (message : string).

Inductive Settled (J : Type) := Resolves (value : J) | Rejects (why : Failure).
Arguments Resolves {J} value.
Arguments Rejects {J} why.

Section Client.
Context {B J : Type}.
Context (stringify : B → string) (emptyObject : J).
Context (message : J → MessageRead).
Context (BACKEND_USER_URL : option string).
Context (net : string → RequestInit → NetResult J).

(** The headers object, in the order its properties are created. *)
Definition headersOf (token : option string) : list (string * string) :=
  [("Content-Type", "application/json")] ++
  match token with
  | Some t => if Js.truthy t then [("Authorization", "Bearer " +:+ t)] else []
  | None => []
  end.

(** The request as [fetch] receives it. *)
Definition initOf (method : string) (body : option B) (token : option string)
    : RequestInit :=
  {| ri_method := method;
     ri_headers := headersOf token;
     ri_body := stringify <$> body;
     ri_credentials := "include" |}.

Definition urlOf (path : string) : string := API_URL BACKEND_USER_URL +:+ path.

(** [err.message || "Request failed"], then [throw new Error(...)] *)
Definition failureOf (err : J) : Failure :=
  match message err with
  | ReadThrows => TypeError
  | NoMessage => Error "Request failed"
  | Message s => Error (if Js.truthy s then s else "Request failed")
  | OtherMessage (Some text) => Error text
  | OtherMessage None => TypeError
  end.

(** [apiClient.request] *)
Definition request (method path : string) (body : option B)
    (token : option string) : Settled J :=
  match net (urlOf path) (initOf method body token) with
  | NetRejects => Rejects FetchFailed
  | NetResponds false json => Rejects (failureOf (default emptyObject json))
  | NetResponds true json => Resolves (default emptyObject json)
  end.

(** [apiClient.get], [post], [put], [patch] and [delete] *)
Definition get (path : string) (token : option string) : Settled J :=
  request "GET" path None token.

Definition post (path : string) (body : option B) (token : option string)
    : Settled J :=
  request "POST" path body token.

Definition put (path : string) (body : option B) (token : option string)
    : Settled J :=
  request "PUT" path body token.

Definition patch (path : string) (body : option B) (token : option string)
    : Settled J :=
  request "PATCH" path body token.

Definition delete (path : string) (body : option B) (token : option string)
    : Settled J :=
  request "DELETE" path body token.

End Client.

End ApiClient.

(** The surroundings a handler has when the backend is reached through
    [apiClient]: a handler passes the body it built and no token. *)
Definition envOf {J : Type} (stringify : Participant → string)
    (BACKEND_USER_URL : option string)
    (net : string → ApiClient.RequestInit → ApiClient.NetResult J)
    (clock : string) : Env :=
  {| fetch := λ method path body,
       match net (ApiClient.urlOf BACKEND_USER_URL path)
                 (ApiClient.initOf stringify method (Some body) None) with
       | ApiClient.NetRejects => NetworkError
       | ApiClient.NetResponds ok _ => Response ok
       end;
     now := clock |}.

(** Every entry of every room has a user id that is not empty. *)
Definition userIdsTruthy (reg : Registry) : Prop :=
  ∀ rid users u, (rid, users) ∈ reg → u ∈ users → userId u ≠ "".

(** Unfolding one run of a handler down to its registry operations. *)
Ltac run_handler :=
  unfold roomIds, post;
  unfold mbind, mret, Handler_bind, Handler_ret, getRoom, setRoom,
    readRegistry, perform, toISOString, request, asArray, throwTypeError;
  cbn.

(** * Properties *)

(** ** Objects as dictionaries *)

Section ObjectFacts.
Context {V : Type}.
Implicit Types (o : Js.Obj V) (k : string) (v : V).

Lemma get_Some_elem k v o : Js.get k o = Some v → (k, v) ∈ o.
Proof.
  induction o as [|[k' v'] o IH]; simpl; [done|].
  case_decide; intros; simplify_eq; [left | right; auto].
Qed.

Lemma get_None k o : Js.get k o = None ↔ k ∉ Js.keys o.
Proof.
  unfold Js.keys. induction o as [|[k' v'] o IH]; simpl.
  - split; [intros _; apply not_elem_of_nil | done].
  - rewrite not_elem_of_cons, <-IH.
    destruct (decide (k' = k)) as [->|].
    + split; [done | by intros [? _]].
    + split; [intros ?; split; [congruence | done] | by intros [_ ?]].
Qed.

Lemma get_is_Some k o : is_Some (Js.get k o) ↔ k ∈ Js.keys o.
Proof.
  rewrite <-not_eq_None_Some, get_None.
  split; [apply dec_stable | auto].
Qed.

Lemma get_replace_eq k v o :
  is_Some (Js.get k o) → Js.get k (Js.replace k v o) = Some v.
Proof.
  induction o as [|[k' v'] o IH]; simpl; [by intros [? ?]|].
  case_decide; simpl; [by rewrite decide_True|].
  intros. rewrite decide_False by done. auto.
Qed.

Lemma get_replace_ne k k' v o :
  k ≠ k' → Js.get k' (Js.replace k v o) = Js.get k' o.
Proof.
  intros Hne. induction o as [|[k1 v1] o IH]; simpl; [done|].
  case_decide; simpl; subst.
  - by rewrite !decide_False.
  - by rewrite IH.
Qed.

Lemma get_defineIndex_eq n k v o :
  Js.get k o = None → Js.get k (Js.defineIndex n k v o) = Some v.
Proof.
  induction o as [|[k1 v1] o IH]; simpl.
  - intros _. by rewrite decide_True.
  - case_decide; [done|]. intros E.
    destruct (Js.arrayIndex k1) as [n1|]; [destruct (n1 <? n)%N|]; simpl.
    + rewrite decide_False by done. auto.
    + by rewrite decide_True.
    + by rewrite decide_True.
Qed.

Lemma get_defineIndex_ne n k k' v o :
  k ≠ k' → Js.get k' (Js.defineIndex n k v o) = Js.get k' o.
Proof.
  intros Hne. induction o as [|[k1 v1] o IH]; simpl.
  - by rewrite decide_False.
  - destruct (Js.arrayIndex k1) as [n1|]; [destruct (n1 <? n)%N|]; simpl.
    + by rewrite IH.
    + by rewrite (decide_False (P := k = k')).
    + by rewrite (decide_False (P := k = k')).
Qed.

Lemma get_snoc k k' v o :
  Js.get k' (o ++ [(k, v)]) =
  match Js.get k' o with
  | Some v' => Some v'
  | None => if decide (k = k') then Some v else None
  end.
Proof.
  induction o as [|[k1 v1] o IH]; simpl; [done|].
  destruct (decide (k1 = k')); [done|]. apply IH.
Qed.

Lemma get_define_eq k v o :
  Js.get k o = None → Js.get k (Js.define k v o) = Some v.
Proof.
  intros E. unfold Js.define. destruct (Js.arrayIndex k).
  - by apply get_defineIndex_eq.
  - rewrite get_snoc, E. by rewrite decide_True.
Qed.

Lemma get_define_ne k k' v o :
  k ≠ k' → Js.get k' (Js.define k v o) = Js.get k' o.
Proof.
  intros Hne. unfold Js.define. destruct (Js.arrayIndex k).
  - by apply get_defineIndex_ne.
  - rewrite get_snoc. destruct (Js.get k' o); [done|]. by rewrite decide_False.
Qed.

Lemma get_set_eq k v o : Js.get k (Js.set k v o) = Some v.
Proof.
  unfold Js.set. destruct (Js.get k o) eqn:E.
  - apply get_replace_eq. by rewrite E.
  - by apply get_define_eq.
Qed.

Lemma get_set_ne k k' v o : k ≠ k' → Js.get k' (Js.set k v o) = Js.get k' o.
Proof.
  intros Hne. unfold Js.set. destruct (Js.get k o) eqn:E.
  - by apply get_replace_ne.
  - by apply get_define_ne.
Qed.

Lemma replace_id k v o : Js.get k o = Some v → Js.replace k v o = o.
Proof.
  induction o as [|[k1 v1] o IH]; simpl; [done|].
  case_decide; intros; simplify_eq; [done|]. by rewrite IH.
Qed.

Lemma set_id k v o : Js.get k o = Some v → Js.set k v o = o.
Proof. intros E. unfold Js.set. rewrite E. by apply replace_id. Qed.

Lemma replace_replace k v v' o :
  Js.replace k v (Js.replace k v' o) = Js.replace k v o.
Proof.
  induction o as [|[k1 v1] o IH]; simpl; [done|].
  case_decide; simpl.
  - by rewrite decide_True.
  - rewrite decide_False by done. by rewrite IH.
Qed.

Lemma replace_defineIndex n k v v' o :
  Js.get k o = None →
  Js.replace k v (Js.defineIndex n k v' o) = Js.defineIndex n k v o.
Proof.
  induction o as [|[k1 v1] o IH]; simpl.
  - intros _. by rewrite decide_True.
  - case_decide; [done|]. intros E.
    destruct (Js.arrayIndex k1) as [n1|]; [destruct (n1 <? n)%N|]; simpl.
    + rewrite decide_False by done. by rewrite IH.
    + by rewrite decide_True.
    + by rewrite decide_True.
Qed.

Lemma replace_snoc k v v' o :
  Js.get k o = None → Js.replace k v (o ++ [(k, v')]) = o ++ [(k, v)].
Proof.
  induction o as [|[k1 v1] o IH]; simpl.
  - intros _. by rewrite decide_True.
  - case_decide; [done|]. intros E. by rewrite IH.
Qed.

Lemma set_set k v v' o : Js.set k v (Js.set k v' o) = Js.set k v o.
Proof.
  unfold Js.set at 1. rewrite get_set_eq.
  unfold Js.set. destruct (Js.get k o) eqn:E.
  - apply replace_replace.
  - unfold Js.define. destruct (Js.arrayIndex k).
    + by apply replace_defineIndex.
    + by apply replace_snoc.
Qed.

Lemma keys_replace k v o : Js.keys (Js.replace k v o) = Js.keys o.
Proof.
  unfold Js.keys. induction o as [|[k1 v1] o IH]; [done|].
  cbn [Js.replace]. destruct (decide (k1 = k)); subst; csimpl; [done|].
  by rewrite IH.
Qed.

Lemma keys_defineIndex n k v o :
  Js.keys (Js.defineIndex n k v o) ≡ₚ k :: Js.keys o.
Proof.
  unfold Js.keys. induction o as [|[k1 v1] o IH]; [done|].
  cbn [Js.defineIndex].
  destruct (Js.arrayIndex k1) as [n1|]; [destruct (n1 <? n)%N|]; csimpl;
    try done.
  rewrite IH. apply Permutation_swap.
Qed.

Lemma keys_define k v o : Js.keys (Js.define k v o) ≡ₚ k :: Js.keys o.
Proof.
  unfold Js.define. destruct (Js.arrayIndex k).
  - apply keys_defineIndex.
  - unfold Js.keys. rewrite fmap_app. csimpl.
    by rewrite Permutation_app_comm.
Qed.

Lemma keys_set k v o :
  Js.keys (Js.set k v o) ≡ₚ
  if Js.get k o is Some _ then Js.keys o else k :: Js.keys o.
Proof.
  unfold Js.set. destruct (Js.get k o).
  - pose proof (keys_replace k v o) as E. unfold Js.keys in *. by rewrite E.
  - apply keys_define.
Qed.

(** In an object with distinct keys the entry of a key can be read and
    written where it stands. *)
Lemma get_middle k v (o1 o2 : Js.Obj V) :
  k ∉ Js.keys o1 → Js.get k (o1 ++ (k, v) :: o2) = Some v.
Proof.
  unfold Js.keys. induction o1 as [|[k1 v1] o1 IH]; simpl.
  - intros _. by rewrite decide_True.
  - rewrite not_elem_of_cons. intros [? ?]. rewrite decide_False by done. auto.
Qed.

Lemma set_middle k v v' (o1 o2 : Js.Obj V) :
  k ∉ Js.keys o1 →
  Js.set k v' (o1 ++ (k, v) :: o2) = o1 ++ (k, v') :: o2.
Proof.
  intros Hk. unfold Js.set. rewrite get_middle by done.
  revert Hk. unfold Js.keys. induction o1 as [|[k1 v1] o1 IH]; simpl.
  - intros _. by rewrite decide_True.
  - rewrite not_elem_of_cons. intros [? ?]. rewrite decide_False by done.
    by rewrite IH.
Qed.

Lemma elem_of_replace k v o kv :
  kv ∈ Js.replace k v o → kv = (k, v) ∨ kv ∈ o.
Proof.
  induction o as [|[k1 v1] o IH]; simpl; [by right|].
  destruct (decide (k1 = k)).
  - intros [->|?]%elem_of_cons; [by left | right; by right].
  - intros [->|[->|?]%IH]%elem_of_cons;
      [right; left | by left | right; by right].
Qed.

Lemma elem_of_defineIndex n k v o kv :
  kv ∈ Js.defineIndex n k v o → kv = (k, v) ∨ kv ∈ o.
Proof.
  induction o as [|[k1 v1] o IH]; simpl.
  - intros ?%list_elem_of_singleton. by left.
  - destruct (Js.arrayIndex k1) as [n1|]; [destruct (n1 <? n)%N|].
    + intros [->|[->|?]%IH]%elem_of_cons;
        [right; left | by left | right; by right].
    + intros [->|?]%elem_of_cons; [by left | by right].
    + intros [->|?]%elem_of_cons; [by left | by right].
Qed.

Lemma elem_of_set k v o kv : kv ∈ Js.set k v o → kv = (k, v) ∨ kv ∈ o.
Proof.
  unfold Js.set. destruct (Js.get k o); [apply elem_of_replace|].
  unfold Js.define. destruct (Js.arrayIndex k); [apply elem_of_defineIndex|].
  intros [?|?%list_elem_of_singleton]%elem_of_app; [by right | by left].
Qed.

End ObjectFacts.

#[global] Arguments Js.get : simpl never.
#[global] Arguments Js.set : simpl never.
#[global] Arguments Js.keys : simpl never.
#[global] Arguments read : simpl never.
#[global] Arguments inherited : simpl never.

(** ** Reading through the prototype *)

Section ReadFacts.
Context {V : Type}.
Implicit Types (o : Js.Obj V) (k : string) (v : V).

Lemma read_Own k o v : read k o = Own v ↔ Js.get k o = Some v.
Proof.
  unfold read. destruct (Js.get k o); [|destruct (inherited k)];
    split; intros; by simplify_eq.
Qed.

Lemma read_Undefined k o :
  read k o = Undefined ↔ Js.get k o = None ∧ inherited k = false.
Proof.
  unfold read. destruct (Js.get k o); [|destruct (inherited k)];
    split; try done; by intros [??].
Qed.

Lemma read_Inherited k o :
  read k o = Inherited ↔ Js.get k o = None ∧ inherited k = true.
Proof.
  unfold read. destruct (Js.get k o); [|destruct (inherited k)];
    split; try done; by intros [??].
Qed.

Lemma read_set_eq k v o : read k (Js.set k v o) = Own v.
Proof. apply read_Own, get_set_eq. Qed.

(** Unless the name is inherited and not shadowed, a read sees what
    [Js.get] sees. *)
Lemma read_not_Inherited k o :
  read k o ≠ Inherited →
  read k o = match Js.get k o with Some v => Own v | None => Undefined end.
Proof.
  unfold read. destruct (Js.get k o); [done|]. by destruct (inherited k).
Qed.

Lemma read_Inherited_dec k o : read k o = Inherited ∨ read k o ≠ Inherited.
Proof. destruct (read k o); auto. Qed.

End ReadFacts.

Example inherited_names :
  inherited "constructor" = true ∧ inherited "toString" = true ∧
  inherited "__proto__" = true ∧ inherited "R1" = false ∧
  inherited "" = false.
Proof. by vm_compute. Qed.

(** ** The embedding at work *)

Example trim_strips_both_ends : Js.trim "  hi there  " = "hi there".
Proof. reflexivity. Qed.

Example trim_strips_tab_and_nbsp :
  Js.trim (String "009" (String "160" "hi")) = "hi".
Proof. reflexivity. Qed.

Example trim_of_blanks : Js.trim "   " = "".
Proof. reflexivity. Qed.

Example arrayIndex_canonical :
  Js.arrayIndex "10" = Some 10%N ∧ Js.arrayIndex "007" = None ∧
  Js.arrayIndex "4294967294" = Some 4294967294%N ∧
  Js.arrayIndex "4294967295" = None ∧ Js.arrayIndex "R1" = None.
Proof. by repeat split. Qed.

(** Rooms named by array indices are enumerated first, in numeric order. *)
Example enumeration_order :
  Js.keys (Js.set "9" [] (Js.set "lobby" [] (Js.set "10" []
            (Js.set "R1" [] ([] : Registry))))) = ["9"; "10"; "R1"; "lobby"].
Proof. reflexivity. Qed.

(** The reload scenario: [A] joins [R1] on [c1], joins again on [c2], and
    disconnects on [c2]. *)
Example reload_then_disconnect :
  deliver [(backendUp, Join "c1" (joinData "A" "Ann" "R1"));
           (backendUp, Join "c2" (joinData "A" "Ann" "R1"));
           (backendUp, Disconnect "c2")] [] =
  ([("R1", [])],
   [Fetch "POST" addParticipant
      {| meetingId := "R1"; p_userId := "A"; p_name := Some "Ann" |};
    SocketJoin "c1" "R1";
    EmitUsersOnline "R1" [member "c1" "A" "Ann"];
    SocketJoin "c2" "R1";
    EmitUsersOnline "R1" [member "c2" "A" "Ann"];
    Fetch "POST" removeParticipant
      {| meetingId := "R1"; p_userId := "A"; p_name := Some "Ann" |};
    EmitUsersOnline "R1" []]).
Proof. reflexivity. Qed.

(** ** Arrays *)

Section ArrayFacts.
Implicit Types (sid : string) (users : list OnlineUser).

Lemma find_None sid users :
  Js.find (λ u, socketId u = sid) users = None ↔ ¬ hasSocket sid users.
Proof.
  unfold Js.find, hasSocket. rewrite fmap_None, list_find_None.
  by rewrite <-Forall_Exists_neg.
Qed.

Lemma findIndex_None sid users :
  Js.findIndex (λ u, socketId u = sid) users = None ↔ ¬ hasSocket sid users.
Proof.
  rewrite <-find_None. unfold Js.find, Js.findIndex. by rewrite !fmap_None.
Qed.

Lemma find_Some sid users u :
  Js.find (λ u, socketId u = sid) users = Some u →
  u ∈ users ∧ socketId u = sid.
Proof.
  unfold Js.find. intros ([i u'] & E & ?)%fmap_Some. simpl in *. subst u'.
  apply list_find_Some in E as (? & ? & _). split; [|done].
  by eapply list_elem_of_lookup_2.
Qed.

Lemma findIndex_Some sid users i :
  Js.findIndex (λ u, socketId u = sid) users = Some i →
  ∃ u, users !! i = Some u ∧ socketId u = sid ∧
       ∀ j v, users !! j = Some v → j < i → socketId v ≠ sid.
Proof.
  unfold Js.findIndex. intros ([i' u] & E & ?)%fmap_Some. simpl in *. subst i'.
  apply list_find_Some in E as (? & ? & ?). eauto.
Qed.

Lemma hasSocket_elem sid users :
  hasSocket sid users ↔ ∃ u, u ∈ users ∧ socketId u = sid.
Proof. unfold hasSocket. by rewrite Exists_exists. Qed.

Lemma withoutSocket_id sid users :
  ¬ hasSocket sid users → withoutSocket sid users = users.
Proof.
  unfold withoutSocket, hasSocket. rewrite <-Forall_Exists_neg.
  induction 1 as [|u users Hu _ IH]; [done|].
  rewrite filter_cons_True by done. by rewrite IH.
Qed.

Lemma withoutSocket_shorter sid users :
  hasSocket sid users → length (withoutSocket sid users) < length users.
Proof.
  intros (u & Hin & Hu)%hasSocket_elem. unfold withoutSocket.
  eapply length_filter_lt; [done|]. simpl. by intros ?.
Qed.

Lemma withoutSocket_clean sid users : ¬ hasSocket sid (withoutSocket sid users).
Proof.
  intros (u & [? ?]%list_elem_of_filter & ?)%hasSocket_elem. done.
Qed.

Lemma withoutSocket_elem sid users u :
  u ∈ withoutSocket sid users ↔ socketId u ≠ sid ∧ u ∈ users.
Proof. unfold withoutSocket. by rewrite list_elem_of_filter. Qed.

End ArrayFacts.

(** ** What one run of a handler amounts to *)

(** One turn of the loop of [disconnect], on a room that is tracked. *)
Lemma disconnectRoom_run sid roomId env reg users :
  Js.get roomId reg = Some users →
  disconnectRoom sid roomId env reg =
  match Js.find (λ u, socketId u = sid) users with
  | None => {| outcome := Returned (); registry := reg; effects := [] |}
  | Some u =>
      let body :=
        {| meetingId := roomId; p_userId := userId u; p_name := name u |} in
      let reg' := Js.set roomId (withoutSocket sid users) reg in
      match fetch env "POST" removeParticipant body with
      | Response true =>
          {| outcome := Returned (); registry := reg';
             effects := [Fetch "POST" removeParticipant body;
                         EmitUsersOnline roomId (withoutSocket sid users)] |}
      | _ =>
          {| outcome := Thrown; registry := reg';
             effects := [Fetch "POST" removeParticipant body] |}
      end
  end.
Proof.
  intros Hget. unfold disconnectRoom. run_handler.
  rewrite (proj2 (read_Own _ _ _) Hget). cbn. rewrite read_set_eq. cbn.
  fold (withoutSocket sid users).
  destruct (Js.find _ users) as [u|] eqn:Hfind.
  - assert (hasSocket sid users) as Hhas.
    { apply dec_stable. intros Hno%find_None. congruence. }
    apply withoutSocket_shorter in Hhas.
    rewrite decide_True by lia. cbn.
    by destruct (fetch env _ _ _) as [|[|]].
  - apply find_None in Hfind.
    rewrite withoutSocket_id by done.
    rewrite decide_False by lia. cbn.
    by rewrite set_id.
Qed.

Lemma keys_cons {V} k (v : V) (o : Js.Obj V) :
  Js.keys ((k, v) :: o) = k :: Js.keys o.
Proof. done. Qed.

Lemma keys_app {V} (o1 o2 : Js.Obj V) :
  Js.keys (o1 ++ o2) = Js.keys o1 ++ Js.keys o2.
Proof. unfold Js.keys. apply fmap_app. Qed.

Lemma roomsOf_cons sid k users reg :
  roomsOf sid ((k, users) :: reg) =
  if decide (hasSocket sid users) then k :: roomsOf sid reg
  else roomsOf sid reg.
Proof.
  unfold roomsOf. rewrite filter_cons. simpl. by case_decide.
Qed.

(** ** The loop of [disconnect] *)

Lemma forIn_cons k ks body env (reg : Registry) :
  forIn (k :: ks) body env reg =
  let r := body k env reg in
  match outcome r with
  | Returned _ =>
      let r' := forIn ks body env (registry r) in
      {| outcome := outcome r'; registry := registry r';
         effects := effects r ++ effects r' |}
  | Thrown =>
      {| outcome := Thrown; registry := registry r; effects := effects r |}
  end.
Proof. done. Qed.

Lemma fetches_nil : fetches [] = [].
Proof. done. Qed.

Lemma fetches_cons e effs :
  fetches (e :: effs) = if isFetch e then e :: fetches effs else fetches effs.
Proof.
  unfold fetches. rewrite filter_cons. by destruct (isFetch e).
Qed.


Lemma swept_refl sid (reg : Registry) : Forall2 (swept sid) reg reg.
Proof.
  apply Forall2_same_length_lookup_2; [done|].
  intros i x y ??. simplify_eq. by split; [|left].
Qed.

Lemma disconnect_loop sid env (todo past : Registry) :
  NoDup (Js.keys (past ++ todo)) →
  let r := forIn (Js.keys todo) (disconnectRoom sid) env (past ++ todo) in
  ∃ todo',
    registry r = past ++ todo' ∧
    Forall2 (swept sid) todo todo' ∧
    (outcome r = Returned () → todo' = cleaned sid todo) ∧
    (∀ m p body, Fetch m p body ∈ effects r →
       m = "POST" ∧ p = removeParticipant ∧
       ∃ users u,
         (meetingId body, users) ∈ todo ∧
         Js.find (λ u, socketId u = sid) users = Some u ∧
         p_userId body = userId u ∧ p_name body = name u ∧
         (meetingId body, withoutSocket sid users) ∈ todo') ∧
    length (fetches (effects r)) ≤ length (roomsOf sid todo) ∧
    (roomsOf sid todo = [] →
       outcome r = Returned () ∧ effects r = [] ∧ todo' = todo).
Proof.
  revert past. induction todo as [|[k users] todo IH]; intros past Hnd r;
    subst r.
  { exists []. cbn. split_and!; try done. intros ??? []%elem_of_nil. }
  assert (k ∉ Js.keys past) as Hk.
  { rewrite keys_app, keys_cons in Hnd.
    apply NoDup_app in Hnd as (_ & Hnd & _).
    intros Hin. apply (Hnd k Hin). left. }
  rewrite keys_cons, forIn_cons.
  rewrite (disconnectRoom_run sid k env _ users) by by apply get_middle.
  rewrite roomsOf_cons.
  destruct (Js.find _ users) as [u|] eqn:Hfind; cbn zeta.
  - assert (hasSocket sid users) as Hhas.
    { apply dec_stable. intros Hno%find_None. congruence. }
    rewrite decide_True by done.
    rewrite set_middle by done.
    assert (∀ todo' m p body,
      Fetch m p body =
        Fetch "POST" removeParticipant
          {| meetingId := k; p_userId := userId u; p_name := name u |} →
      m = "POST" ∧ p = removeParticipant ∧
      ∃ users0 u0,
        (meetingId body, users0) ∈ (k, users) :: todo ∧
        Js.find (λ u, socketId u = sid) users0 = Some u0 ∧
        p_userId body = userId u0 ∧ p_name body = name u0 ∧
        (meetingId body, withoutSocket sid users0) ∈
          (k, withoutSocket sid users) :: todo') as Hhere.
    { intros todo' m p body E. simplify_eq. split_and!; [done..|].
      exists users, u. cbn. split_and!; [left|done..|left]. }
    destruct (fetch env _ _ _) as [|[|]] eqn:Hfetch; cbn.
    + exists ((k, withoutSocket sid users) :: todo). split_and!.
      * done.
      * constructor; [by split; [|right] | apply swept_refl].
      * done.
      * intros m p body [E|[]%elem_of_nil]%elem_of_cons. by apply Hhere.
      * rewrite fetches_cons, fetches_nil. cbn. lia.
      * done.
    + destruct (IH (past ++ [(k, withoutSocket sid users)])) as
        (todo' & Hreg & Hsw & Hret & Hfetch' & Hlen & _).
      { rewrite <-app_assoc. cbn.
        by rewrite keys_app, keys_cons in *. }
      rewrite <-!app_assoc in Hreg.
      rewrite <-app_assoc in Hret, Hfetch', Hlen. cbn in *.
      exists ((k, withoutSocket sid users) :: todo'). split_and!.
      * done.
      * constructor; [by split; [|right]|done].
      * intros E. by rewrite (Hret E).
      * intros m p body [E|[E|Hin]%elem_of_cons]%elem_of_cons.
        -- by apply Hhere.
        -- done.
        -- destruct (Hfetch' m p body Hin)
             as (? & ? & us & v & ? & ? & ? & ? & ?).
           split_and!; [done..|]. exists us, v.
           split_and!; [by right|done..|by right].
      * rewrite !fetches_cons. cbn. lia.
      * done.
    + exists ((k, withoutSocket sid users) :: todo). split_and!.
      * done.
      * constructor; [by split; [|right] | apply swept_refl].
      * done.
      * intros m p body [E|[]%elem_of_nil]%elem_of_cons. by apply Hhere.
      * rewrite fetches_cons, fetches_nil. cbn. lia.
      * done.
  - apply find_None in Hfind. rewrite decide_False by done. cbn.
    destruct (IH (past ++ [(k, users)])) as
      (todo' & Hreg & Hsw & Hret & Hfetch' & Hlen & Hnone).
    { by rewrite <-app_assoc. }
    rewrite <-!app_assoc in Hreg.
    rewrite <-app_assoc in Hret, Hfetch', Hlen, Hnone. cbn in *.
    exists ((k, users) :: todo'). split_and!.
    + done.
    + constructor; [by split; [|left]|done].
    + intros E. rewrite (Hret E).
      change ((k, users) :: cleaned sid todo =
              (k, withoutSocket sid users) :: cleaned sid todo).
      by rewrite withoutSocket_id.
    + intros m p body Hin.
      destruct (Hfetch' m p body Hin) as (? & ? & us & v & ? & ? & ? & ? & ?).
      split_and!; [done..|]. exists us, v.
      split_and!; [by right|done..|by right].
    + done.
    + intros E. by destruct (Hnone E) as (? & ? & ->).
Qed.

Lemma calledRooms_app effs1 effs2 :
  calledRooms (effs1 ++ effs2) = calledRooms effs1 ++ calledRooms effs2.
Proof. apply omap_app. Qed.



(** ** One run of [newUser], [leave-call] and [chat:message] *)

(** A join with a user id and a room id: the three cases of the handler,
    on the room's array as it stands (empty when the room is new). *)
Lemma newUser_run sid userData uid roomId env (reg : Registry) :
  ud_userId userData = Some uid → ud_roomId userData = Some roomId →
  Js.truthy uid = true → Js.truthy roomId = true →
  read roomId reg ≠ Inherited →
  newUser sid userData env reg =
  let users := default [] (Js.get roomId reg) in
  let entry := entryOf sid uid userData in
  match Js.findIndex (λ user, socketId user = sid) users with
  | Some i =>
      let users' := <[i := entry]> users in
      {| outcome := Returned (); registry := Js.set roomId users' reg;
         effects := [SocketJoin sid roomId; EmitUsersOnline roomId users'] |}
  | None =>
      if Js.some (λ user, userId user = uid) users then
        let users' := rewriteUser uid entry users in
        {| outcome := Returned (); registry := Js.set roomId users' reg;
           effects := [SocketJoin sid roomId;
                       EmitUsersOnline roomId users'] |}
      else
        let users' := Js.push users entry in
        let body := {| meetingId := roomId; p_userId := uid;
                       p_name := ud_name userData |} in
        match fetch env "POST" addParticipant body with
        | Response true =>
            {| outcome := Returned (); registry := Js.set roomId users' reg;
               effects := [Fetch "POST" addParticipant body;
                           SocketJoin sid roomId;
                           EmitUsersOnline roomId users'] |}
        | _ =>
            {| outcome := Thrown; registry := Js.set roomId users' reg;
               effects := [Fetch "POST" addParticipant body] |}
        end
  end.
Proof.
  intros Hu Hr Htu Htr Hread. unfold newUser. rewrite Hu, Hr, Htu, Htr.
  cbn zeta. run_handler.
  rewrite (read_not_Inherited _ _ Hread).
  destruct (Js.get roomId reg) as [users|] eqn:E; cbn;
    [rewrite (proj2 (read_Own _ _ _) E) | rewrite read_set_eq]; cbn.
  all: destruct (Js.findIndex _ _) as [i|]; cbn;
    [ by rewrite ?set_set, read_set_eq |].
  all: destruct (Js.some _ _); cbn;
    [ by rewrite ?set_set, read_set_eq |].
  all: destruct (fetch env _ _ _) as [|[|]]; cbn;
    by rewrite ?set_set, ?read_set_eq.
Qed.

(** A join to a room id that names a member of [Object.prototype] and is
    not a room: the inherited member is not an array, and the handler
    throws before it has done anything. *)
Lemma newUser_blocked sid userData uid roomId env (reg : Registry) :
  ud_userId userData = Some uid → ud_roomId userData = Some roomId →
  Js.truthy uid = true → Js.truthy roomId = true →
  read roomId reg = Inherited →
  newUser sid userData env reg = refused reg.
Proof.
  intros Hu Hr Htu Htr Hread. unfold newUser. rewrite Hu, Hr, Htu, Htr.
  cbn zeta. run_handler. rewrite Hread. cbn. by rewrite Hread.
Qed.

(** An explicit leave of a tracked room. *)
Lemma leaveCall_run sid roomId env (reg : Registry) users :
  Js.truthy roomId = true → Js.get roomId reg = Some users →
  leaveCall sid (Some roomId) env reg =
  let users' := withoutSocket sid users in
  let reg' := Js.set roomId users' reg in
  match Js.find (λ u, socketId u = sid) users with
  | None =>
      {| outcome := Returned (); registry := reg';
         effects := [SocketLeave sid roomId; EmitUsersOnline roomId users'] |}
  | Some u =>
      let body :=
        {| meetingId := roomId; p_userId := userId u; p_name := name u |} in
      match fetch env "POST" removeParticipant body with
      | Response true =>
          {| outcome := Returned (); registry := reg';
             effects := [Fetch "POST" removeParticipant body;
                         LogUser (userId u);
                         SocketLeave sid roomId;
                         EmitUsersOnline roomId users'] |}
      | _ =>
          {| outcome := Thrown; registry := reg';
             effects := [Fetch "POST" removeParticipant body] |}
      end
  end.
Proof.
  intros Ht Hget. unfold leaveCall. rewrite Ht. run_handler.
  rewrite (proj2 (read_Own _ _ _) Hget). cbn.
  fold (withoutSocket sid users).
  destruct (Js.find _ users) as [u|]; cbn.
  - destruct (fetch env _ _ _) as [|[|]]; cbn; by rewrite ?read_set_eq.
  - by rewrite read_set_eq.
Qed.

(** An explicit leave of a room id that names a member of
    [Object.prototype] and is not a room: [users] is that member, the
    guard lets it pass and [users.find] throws. *)
Lemma leaveCall_blocked sid roomId env (reg : Registry) :
  Js.truthy roomId = true → read roomId reg = Inherited →
  leaveCall sid (Some roomId) env reg = refused reg.
Proof.
  intros Ht Hread. unfold leaveCall. rewrite Ht. run_handler.
  by rewrite Hread.
Qed.

(** A chat message with some text left after trimming. *)
Lemma chatMessage_run sid payload msg env (reg : Registry) :
  cm_message payload = Some msg → Js.truthy (Js.trim msg) = true →
  chatMessage sid (Some payload) env reg =
  let found := findSender sid (Js.keys reg) reg in
  let outgoingMessage :=
    {| out_userId := cm_userId payload;
       out_message := Js.trim msg;
       out_timestamp := default (now env) (cm_timestamp payload);
       out_name := (snd <$> found) ≫= name;
       out_photo := (snd <$> found) ≫= photo |} in
  {| outcome := Returned (); registry := reg;
     effects :=
       (if Js.truthy_opt (fst <$> found)
        then [EmitChatMessage (default "" (fst <$> found)) outgoingMessage]
        else []) ++ [LogRelayedChat outgoingMessage] |}.
Proof.
  intros Hm Ht. unfold chatMessage. rewrite Hm. cbn. rewrite Ht. cbn.
  run_handler.
  destruct (cm_timestamp payload); cbn;
    by destruct (Js.truthy_opt _).
Qed.

Lemma newUser_invalid sid userData env (reg : Registry) :
  Js.truthy_opt (ud_userId userData) = false ∨
  Js.truthy_opt (ud_roomId userData) = false →
  newUser sid userData env reg = idle reg.
Proof.
  unfold newUser.
  destruct (ud_userId userData) as [uid|], (ud_roomId userData) as [rid|];
    cbn; try done.
  intros [-> | ->]; [done|]. by rewrite orb_true_r.
Qed.

Lemma chatMessage_invalid sid payload env (reg : Registry) :
  Js.truthy_opt (Js.trim <$> (payload ≫= cm_message)) = false →
  chatMessage sid payload env reg = idle reg.
Proof.
  unfold chatMessage. destruct payload as [payload|]; cbn; [|done].
  destruct (cm_message payload) as [msg|]; cbn; [|done].
  by intros ->.
Qed.

Lemma leaveCall_untracked sid roomId env (reg : Registry) :
  Js.truthy_opt roomId = false ∨
  (∃ r, roomId = Some r ∧ read r reg = Undefined) →
  leaveCall sid roomId env reg = idle reg.
Proof.
  unfold leaveCall. destruct roomId as [r|]; cbn; [|done].
  intros [-> | (r' & [= <-] & E)]; [done|].
  destruct (Js.truthy r); cbn; [|done].
  run_handler. by rewrite E.
Qed.

Lemma leaveCall_absent sid k env (reg : Registry) :
  Js.truthy k = true → Js.get k reg = None →
  leaveCall sid (Some k) env reg = idle reg ∨
  leaveCall sid (Some k) env reg = refused reg.
Proof.
  intros Ht Hget. destruct (inherited k) eqn:Hinh.
  - right. apply leaveCall_blocked; [done|]. by apply read_Inherited.
  - left. apply leaveCall_untracked. right. exists k.
    split; [done|]. by apply read_Undefined.
Qed.

(** A join is dropped, or refused, or is one of the three cases. *)
Lemma newUser_cases sid userData env (reg : Registry) :
  newUser sid userData env reg = idle reg ∨
  newUser sid userData env reg = refused reg ∨
  ∃ uid roomId,
    ud_userId userData = Some uid ∧ ud_roomId userData = Some roomId ∧
    Js.truthy uid = true ∧ Js.truthy roomId = true ∧
    read roomId reg ≠ Inherited.
Proof.
  destruct (Js.truthy_opt (ud_userId userData)) eqn:Hu;
    [|left; apply newUser_invalid; auto].
  destruct (Js.truthy_opt (ud_roomId userData)) eqn:Hr;
    [|left; apply newUser_invalid; auto].
  destruct (ud_userId userData) as [uid|] eqn:Eu; [|done].
  destruct (ud_roomId userData) as [rid|] eqn:Er; [|done].
  right. destruct (read rid reg) eqn:Hread.
  - right. exists uid, rid. by rewrite Hread.
  - left. by apply (newUser_blocked sid userData uid rid).
  - right. exists uid, rid. by rewrite Hread.
Qed.

(** A leave is a no-op, or refused, or works on the array of its room. *)
Lemma leaveCall_cases sid roomId env (reg : Registry) :
  leaveCall sid roomId env reg = idle reg ∨
  leaveCall sid roomId env reg = refused reg ∨
  ∃ r users,
    roomId = Some r ∧ Js.truthy r = true ∧ Js.get r reg = Some users.
Proof.
  destruct (Js.truthy_opt roomId) eqn:Ht;
    [|left; apply leaveCall_untracked; auto].
  destruct roomId as [r|]; [|done]. cbn in Ht.
  destruct (read r reg) as [users| |] eqn:Hread.
  - right; right. exists r, users. by apply read_Own in Hread.
  - right; left. by apply leaveCall_blocked.
  - left. apply leaveCall_untracked. eauto.
Qed.

(** ** Keys stay distinct and truthy *)

Lemma wf_nil : wf [].
Proof. split; [apply NoDup_nil_2 | apply Forall_nil_2]. Qed.

Lemma wf_set k users (reg : Registry) :
  Js.truthy k = true → wf reg → wf (Js.set k users reg).
Proof.
  intros Hk [Hnd Ht]. unfold wf. rewrite !(keys_set k users reg).
  destruct (Js.get k reg) eqn:E; [done|].
  apply get_None in E. split; [by apply NoDup_cons_2 | by apply Forall_cons_2].
Qed.

Lemma swept_keys sid (reg reg' : Registry) :
  Forall2 (swept sid) reg reg' → Js.keys reg' = Js.keys reg.
Proof.
  unfold Js.keys. induction 1 as [|[??] [??] ?? [? _] _ IH]; [done|].
  cbn in *. by f_equal.
Qed.

Lemma chatMessage_registry sid payload env (reg : Registry) :
  registry (chatMessage sid payload env reg) = reg.
Proof.
  destruct (Js.truthy_opt (Js.trim <$> (payload ≫= cm_message))) eqn:E.
  - destruct payload as [payload|]; [|done]. cbn in E.
    destruct (cm_message payload) as [msg|] eqn:Hm; [|done].
    by rewrite (chatMessage_run _ _ msg).
  - by rewrite chatMessage_invalid.
Qed.

Lemma disconnect_forIn sid env (reg : Registry) :
  disconnect sid env reg = forIn (Js.keys reg) (disconnectRoom sid) env reg.
Proof.
  unfold disconnect. run_handler.
  by destruct (forIn _ _ _ _) as [[] ? ?].
Qed.

Lemma handle_wf e env (reg : Registry) :
  wf reg → wf (registry (handle e env reg)).
Proof.
  intros Hwf.
  destruct e as [sid userData|sid|sid|sid payload|sid roomId|sid]; cbn;
    [| done | | | | done].
  - destruct (newUser_cases sid userData env reg)
      as [-> | [-> | (uid & rid & Eu & Er & Hu & Hr & Hread)]]; [done..|].
    rewrite (newUser_run sid userData uid rid) by done. cbn zeta.
    destruct (Js.findIndex _ _); [by apply wf_set|].
    destruct (Js.some _ _); [by apply wf_set|].
    destruct (fetch env _ _ _) as [|[|]]; by apply wf_set.
  - rewrite disconnect_forIn.
    destruct (disconnect_loop sid env reg []) as (reg' & E & Hsw & _);
      [apply Hwf|].
    cbn in E. rewrite E. unfold wf. by rewrite (swept_keys sid reg reg').
  - by rewrite chatMessage_registry.
  - destruct (leaveCall_cases sid roomId env reg)
      as [-> | [-> | (r & users & -> & Ht & E)]]; [done..|].
    rewrite (leaveCall_run sid r env reg users) by done. cbn zeta.
    destruct (Js.find _ _); [|by apply wf_set].
    destruct (fetch env _ _ _) as [|[|]]; by apply wf_set.
Qed.

Lemma reachable_wf (reg : Registry) : reachable reg → wf reg.
Proof. induction 1; [apply wf_nil | by apply handle_wf]. Qed.

(** ** The search for the sender *)

Lemma findSender_Some sid ks (reg : Registry) rid u :
  findSender sid ks reg = Some (rid, u) →
  rid ∈ ks ∧ ∃ users,
    Js.get rid reg = Some users ∧
    Js.find (λ u, socketId u = sid) users = Some u.
Proof.
  induction ks as [|k ks IH]; cbn; [done|].
  destruct (Js.get k reg) as [users|] eqn:E; cbn.
  - destruct (Js.find _ users) as [v|] eqn:Hf.
    + intros ?; simplify_eq. split; [left | eauto].
    + intros [? ?]%IH. split; [by right | done].
  - change (Js.find (λ u, socketId u = sid) []) with (@None OnlineUser).
    intros [? ?]%IH. split; [by right | done].
Qed.

Lemma findSender_None sid ks (reg : Registry) :
  (∀ rid users, (rid, users) ∈ reg → ¬ hasSocket sid users) →
  findSender sid ks reg = None.
Proof.
  intros Hno. induction ks as [|k ks IH]; cbn; [done|].
  destruct (Js.get k reg) as [users|] eqn:E; cbn.
  - apply get_Some_elem, Hno, find_None in E. by rewrite E.
  - done.
Qed.

Lemma roomsOf_nil_cons sid k users (reg : Registry) :
  roomsOf sid ((k, users) :: reg) = [] ↔
  ¬ hasSocket sid users ∧ roomsOf sid reg = [].
Proof.
  rewrite roomsOf_cons. destruct (decide (hasSocket sid users)).
  - split; [done | by intros [? _]].
  - split; [done | by intros [_ ?]].
Qed.

Lemma roomsOf_nil sid (reg : Registry) :
  roomsOf sid reg = [] ↔ ∀ rid users, (rid, users) ∈ reg → ¬ hasSocket sid users.
Proof.
  induction reg as [|[k users] reg IH].
  - split; [intros _ ?? []%elem_of_nil | done].
  - rewrite roomsOf_nil_cons, IH. split.
    + intros [? ?] rid us [?|?]%elem_of_cons; simplify_eq; eauto.
    + intros H. split; [apply (H k); left|].
      intros rid us ?. apply (H rid). by right.
Qed.

(** The first room that holds the connection, and the first entry of the
    connection in it. *)
Lemma first_room sid (reg : Registry) :
  roomsOf sid reg ≠ [] →
  ∃ before rid users after u,
    reg = before ++ (rid, users) :: after ∧
    roomsOf sid before = [] ∧
    Js.find (λ u, socketId u = sid) users = Some u.
Proof.
  induction reg as [|[k users] reg IH]; [done|].
  destruct (Js.find (λ u, socketId u = sid) users) as [u|] eqn:Hf.
  - intros _. by exists [], k, users, reg, u.
  - apply find_None in Hf. rewrite roomsOf_cons, decide_False by done.
    intros (before & rid & us & after & u & -> & Hb & Hu)%IH.
    exists ((k, users) :: before), rid, us, after, u. split_and!; [done| |done].
    by apply roomsOf_nil_cons.
Qed.

Lemma findSender_middle sid (past before after : Registry) rid users u :
  NoDup (Js.keys (past ++ before ++ (rid, users) :: after)) →
  roomsOf sid before = [] →
  Js.find (λ u, socketId u = sid) users = Some u →
  findSender sid (Js.keys (before ++ (rid, users) :: after))
    (past ++ before ++ (rid, users) :: after) = Some (rid, u).
Proof.
  intros Hnd Hb Hu. revert past Hnd.
  induction before as [|[k us] before IH]; intros past Hnd.
  - cbn [app] in *. rewrite keys_cons. cbn [findSender].
    rewrite get_middle; [cbn; by rewrite Hu|].
    rewrite keys_app, keys_cons in Hnd.
    apply NoDup_app in Hnd as (_ & Hnd & _).
    intros Hin. apply (Hnd rid Hin). left.
  - apply roomsOf_nil_cons in Hb as [Hus Hb].
    cbn [app] in *. rewrite keys_cons. cbn [findSender].
    rewrite get_middle; [cbn|].
    + apply find_None in Hus. rewrite Hus.
      specialize (IH Hb (past ++ [(k, us)])).
      rewrite <-!app_assoc in IH. by apply IH.
    + rewrite keys_app, keys_cons in Hnd.
      apply NoDup_app in Hnd as (_ & Hnd & _).
      intros Hin. apply (Hnd k Hin). left.
Qed.

Lemma truthy_ne s : Js.truthy s = true ↔ s ≠ "".
Proof. by destruct s. Qed.

(** ** Trimming, on the characters of a string *)

Lemma chars_inj s1 s2 : chars s1 = chars s2 → s1 = s2.
Proof.
  unfold chars. intros E.
  by rewrite <-(string_of_list_ascii_of_string s1),
    <-(string_of_list_ascii_of_string s2), E.
Qed.

Lemma chars_app s1 s2 : chars (s1 +:+ s2) = chars s1 ++ chars s2.
Proof.
  unfold chars. induction s1 as [|c s1 IH]; [done|].
  change (String c s1 +:+ s2) with (String c (s1 +:+ s2)). cbn.
  by rewrite IH.
Qed.

Lemma chars_nil s : chars s = [] ↔ s = "".
Proof. by destruct s. Qed.

Lemma chars_rev_app s1 s2 :
  chars (String.rev_app s1 s2) = reverse (chars s1) ++ chars s2.
Proof.
  unfold chars. revert s2. induction s1 as [|c s1 IH]; intros s2; [done|].
  cbn [String.rev_app list_ascii_of_string].
  rewrite IH, reverse_cons, <-app_assoc. done.
Qed.

Lemma chars_rev s : chars (String.rev s) = reverse (chars s).
Proof.
  unfold String.rev. rewrite chars_rev_app. cbn. by rewrite app_nil_r.
Qed.

Lemma chars_trimStart s : chars (Js.trimStart s) = dropWs (chars s).
Proof.
  unfold chars. induction s as [|c s IH]; [done|].
  cbn. by destruct (Js.isWhiteSpace c).
Qed.

Lemma chars_trim s :
  chars (Js.trim s) = reverse (dropWs (reverse (dropWs (chars s)))).
Proof.
  unfold Js.trim, Js.trimEnd.
  by rewrite chars_rev, chars_trimStart, chars_rev, chars_trimStart.
Qed.

Lemma dropWs_split l :
  ∃ w, l = w ++ dropWs l ∧ Forall (λ c, Js.isWhiteSpace c = true) w.
Proof.
  induction l as [|c l (w & E & Hw)]; [by exists []|].
  cbn. destruct (Js.isWhiteSpace c) eqn:Hc.
  - exists (c :: w). split; [cbn; by rewrite <-E | by constructor].
  - by exists [].
Qed.

Lemma dropWs_head l c l' : dropWs l = c :: l' → Js.isWhiteSpace c = false.
Proof.
  induction l as [|d l IH]; [done|]. cbn.
  destruct (Js.isWhiteSpace d) eqn:Hd; [done|]. intros ?. by simplify_eq.
Qed.

Lemma dropWs_blank w l :
  Forall (λ c, Js.isWhiteSpace c = true) w → dropWs (w ++ l) = dropWs l.
Proof. induction 1 as [|c w Hc _ IH]; [done|]. cbn. by rewrite Hc. Qed.

Lemma dropWs_all_blank w :
  Forall (λ c, Js.isWhiteSpace c = true) w ↔ dropWs w = [].
Proof.
  split.
  - intros Hw. rewrite <-(app_nil_r w). by rewrite dropWs_blank.
  - intros E. destruct (dropWs_split w) as (w' & Hsplit & Hw').
    rewrite E, app_nil_r in Hsplit. by subst.
Qed.

Lemma dropWs_keeps c l : Js.isWhiteSpace c = false → dropWs (c :: l) = c :: l.
Proof. intros Hc. cbn. by rewrite Hc. Qed.

Lemma dropWs_idem l : dropWs (dropWs l) = dropWs l.
Proof.
  destruct (dropWs l) as [|c l'] eqn:E; [done|].
  apply dropWs_keeps. by eapply dropWs_head.
Qed.

Lemma trimmed_neat l : neat (trimmed l).
Proof.
  unfold neat, trimmed. rewrite reverse_involutive, dropWs_idem.
  split; [|done].
  destruct (dropWs_split (reverse (dropWs l))) as (w & E & Hw).
  destruct (dropWs (reverse (dropWs l))) as [|c b] eqn:Hb; [done|].
  assert (dropWs l = reverse (c :: b) ++ reverse w) as Ha.
  { rewrite <-reverse_app, <-E. by rewrite reverse_involutive. }
  destruct (reverse (c :: b)) as [|d t] eqn:Hr.
  { apply (f_equal length) in Hr. rewrite length_reverse in Hr. done. }
  apply dropWs_keeps. cbn in Ha. by eapply dropWs_head.
Qed.

Lemma trimmed_padded w1 l w2 :
  Forall (λ c, Js.isWhiteSpace c = true) w1 →
  Forall (λ c, Js.isWhiteSpace c = true) w2 →
  neat l → l ≠ [] → trimmed (w1 ++ l ++ w2) = l.
Proof.
  intros Hw1 Hw2 [Hl Hr] Hne. unfold trimmed.
  rewrite dropWs_blank by done.
  destruct l as [|c l]; [done|].
  assert (Js.isWhiteSpace c = false) as Hc by by eapply dropWs_head.
  cbn [app]. rewrite dropWs_keeps by done.
  change (c :: l ++ w2) with ((c :: l) ++ w2).
  rewrite reverse_app, dropWs_blank by by apply Forall_reverse.
  by rewrite Hr, reverse_involutive.
Qed.


Lemma trimmed_nil l :
  trimmed l = [] ↔ Forall (λ c, Js.isWhiteSpace c = true) l.
Proof.
  unfold trimmed. split.
  - intros E. apply (f_equal reverse) in E.
    rewrite reverse_involutive in E. change (reverse []) with (@nil ascii) in E.
    apply dropWs_all_blank, Forall_reverse in E.
    rewrite reverse_involutive in E.
    destruct (dropWs_split l) as (w & Hsplit & Hw).
    rewrite Hsplit. by apply Forall_app.
  - intros Hl. apply dropWs_all_blank in Hl. by rewrite Hl.
Qed.



Lemma trim_empty s : Js.trim s = "" ↔ blank s.
Proof.
  unfold blank. rewrite <-trimmed_nil, <-chars_nil. by rewrite chars_trim.
Qed.

Lemma trimmed_split l :
  ∃ w1 w2,
    l = w1 ++ trimmed l ++ w2 ∧
    Forall (λ c, Js.isWhiteSpace c = true) w1 ∧
    Forall (λ c, Js.isWhiteSpace c = true) w2.
Proof.
  destruct (dropWs_split l) as (w1 & E1 & Hw1).
  destruct (dropWs_split (reverse (dropWs l))) as (w & E2 & Hw).
  exists w1, (reverse w). split_and!; [|done|by apply Forall_reverse].
  unfold trimmed. rewrite <-reverse_app, <-E2, reverse_involutive. done.
Qed.

(** What [trim] gives is what is left of the string once the white space
    at its two ends is taken away. *)
Lemma trim_padding s :
  ∃ lead trail,
    s = lead +:+ Js.trim s +:+ trail ∧ blank lead ∧ blank trail ∧
    neat (chars (Js.trim s)).
Proof.
  destruct (trimmed_split (chars s)) as (w1 & w2 & E & Hw1 & Hw2).
  exists (string_of_list_ascii w1), (string_of_list_ascii w2).
  unfold blank, chars at 1 2.
  rewrite !list_ascii_of_string_of_list_ascii. split_and!; [|done..|].
  - apply chars_inj. rewrite !chars_app. unfold chars at 2 4.
    rewrite !list_ascii_of_string_of_list_ascii.
    by rewrite chars_trim.
  - rewrite chars_trim. apply trimmed_neat.
Qed.

(** ** Invalid input *)




(** ** The chat relay *)

(** C8. The chat handler leaves the registry as it found it, whatever the
    message; and a message from a connection that is in no room's array is
    broadcast nowhere: the only thing the handler may still do is write
    its log line. *)
Theorem chat_only_reads sid payload env (reg : Registry) :
  registry (chatMessage sid payload env reg) = reg ∧
  ((∀ rid users, (rid, users) ∈ reg → ¬ hasSocket sid users) →
   ∀ e, e ∈ effects (chatMessage sid payload env reg) →
        ∃ out, e = LogRelayedChat out).
Proof.
  split; [apply chatMessage_registry|]. intros Hno e.
  destruct (Js.truthy_opt (Js.trim <$> (payload ≫= cm_message))) eqn:E.
  - destruct payload as [payload|]; [|done]. cbn in E.
    destruct (cm_message payload) as [msg|] eqn:Hm; [|done].
    rewrite (chatMessage_run _ _ msg) by done. cbn zeta.
    rewrite findSender_None by done. cbn.
    intros [->|[]%elem_of_nil]%elem_of_cons. eauto.
  - rewrite chatMessage_invalid by done. by intros []%elem_of_nil.
Qed.

Lemma chat_only_reads_witness :
  (∀ rid users, (rid, users) ∈ beaInR2 → ¬ hasSocket "c9" users) ∧
  ∀ e,
    e ∈ effects
          (chatMessage "c9"
             (Some {| cm_userId := "Z"; cm_message := Some "hello";
                      cm_timestamp := None |}) backendUp beaInR2) →
    ∃ out, e = LogRelayedChat out.
Proof.
  assert (∀ rid users, (rid, users) ∈ beaInR2 → ¬ hasSocket "c9" users) as H.
  { intros rid users [E|[]%elem_of_nil]%elem_of_cons. simplify_eq.
    intros [|[]%Exists_nil]%Exists_cons. done. }
  split; [exact H|].
  exact (proj2 (chat_only_reads "c9" _ backendUp beaInR2) H).
Defined.

(** C10. Whenever the chat handler broadcasts, the user id of the outgoing
    message is the one of the incoming payload, with no look at the
    registry; the name and the photo are those of the entry that the
    sending connection has in the room the message goes to. *)
Theorem chat_userId_is_verbatim sid payload env (reg : Registry) rid out :
  EmitChatMessage rid out ∈ effects (chatMessage sid (Some payload) env reg) →
  out_userId out = cm_userId payload ∧
  ∃ users u,
    Js.get rid reg = Some users ∧
    Js.find (λ u, socketId u = sid) users = Some u ∧
    out_name out = name u ∧ out_photo out = photo u.
Proof.
  destruct (Js.truthy_opt (Js.trim <$> cm_message payload)) eqn:E.
  - destruct (cm_message payload) as [msg|] eqn:Hm; [|done].
    rewrite (chatMessage_run _ _ msg) by done. cbn zeta.
    destruct (findSender sid _ reg) as [[rid' u]|] eqn:Hf; cbn.
    + apply findSender_Some in Hf as (_ & users & Hget & Hu).
      destruct (Js.truthy rid'); cbn.
      * intros [?|[?|[]%elem_of_nil]%elem_of_cons]%elem_of_cons;
          simplify_eq. cbn. split; [done|]. by exists users, u.
      * intros [?|[]%elem_of_nil]%elem_of_cons. done.
    + intros [?|[]%elem_of_nil]%elem_of_cons. done.
  - rewrite chatMessage_invalid by done. by intros []%elem_of_nil.
Qed.

Lemma chat_userId_is_verbatim_witness :
  let out :=
    {| out_userId := "Mallory"; out_message := "hi";
       out_timestamp := "2024-01-01T00:00:00.000Z";
       out_name := Some "Bea"; out_photo := None |} in
  EmitChatMessage "R2" out ∈
    effects (chatMessage "c7"
               (Some {| cm_userId := "Mallory"; cm_message := Some "  hi  ";
                        cm_timestamp := None |}) backendUp beaInR2) ∧
  out_userId out = "Mallory" ∧
  ∃ users u,
    Js.get "R2" beaInR2 = Some users ∧
    Js.find (λ u, socketId u = "c7") users = Some u ∧
    userId u = "B" ∧
    out_name out = name u ∧ out_photo out = photo u.
Proof.
  intros out.
  assert (EmitChatMessage "R2" out ∈
    effects (chatMessage "c7"
               (Some {| cm_userId := "Mallory"; cm_message := Some "  hi  ";
                        cm_timestamp := None |}) backendUp beaInR2)) as H.
  { left. }
  split; [exact H|].
  destruct (chat_userId_is_verbatim _ _ _ _ _ _ H)
    as (Hid & users & u & Hget & Hfind & Hn & Hp).
  split; [exact Hid|]. exists users, u.
  split_and!; try done.
  vm_compute in Hget, Hfind. by simplify_eq.
Defined.

(** C7. A chat message whose text is not all white space, from a
    connection held by some room, is broadcast once, to the first room (in
    the order the rooms are enumerated) whose array holds the connection.
    The message carries the trimmed text, that is the text of the payload
    without the white space at its two ends; the name and photo of the
    first entry of the connection in that room; and the timestamp of the
    client when there is one (the reading of the clock otherwise). *)
Theorem chat_goes_to_first_room sid payload msg env (reg : Registry) :
  wf reg →
  cm_message payload = Some msg →
  ¬ blank msg →
  (∃ rid users, (rid, users) ∈ reg ∧ hasSocket sid users) →
  ∃ before rid users after u lead text trail,
    reg = before ++ (rid, users) :: after ∧
    (∀ rid' users', (rid', users') ∈ before → ¬ hasSocket sid users') ∧
    Js.find (λ u, socketId u = sid) users = Some u ∧
    msg = lead +:+ text +:+ trail ∧ blank lead ∧ blank trail ∧
    neat (chars text) ∧
    let out :=
      {| out_userId := cm_userId payload;
         out_message := text;
         out_timestamp :=
           match cm_timestamp payload with
           | Some t => t
           | None => now env
           end;
         out_name := name u;
         out_photo := photo u |} in
    effects (chatMessage sid (Some payload) env reg) =
      [EmitChatMessage rid out; LogRelayedChat out].
Proof.
  intros [Hnd Htruthy] Hm Ht (rid0 & users0 & Hin & Hhas).
  assert (Js.truthy (Js.trim msg) = true) as Ht'.
  { apply truthy_ne. by rewrite trim_empty. }
  destruct (first_room sid reg)
    as (before & rid & users & after & u & -> & Hb & Hu).
  { intros E. eapply roomsOf_nil in E; [|done]. done. }
  destruct (trim_padding msg) as (lead & trail & Hpad & Hlead & Htrail & Hneat).
  exists before, rid, users, after, u, lead, (Js.trim msg), trail.
  split_and!; [done| |done..|].
  { by apply roomsOf_nil. }
  rewrite (chatMessage_run _ _ msg) by done. cbn zeta.
  pose proof (findSender_middle sid [] before after rid users u Hnd Hb Hu)
    as Hfound.
  cbn [app] in Hfound. rewrite Hfound.
  cbn. rewrite Forall_forall in Htruthy.
  rewrite (Htruthy rid); [done|].
  rewrite keys_app, keys_cons. apply elem_of_app. right. left.
Qed.

Lemma chat_goes_to_first_room_witness :
  let payload :=
    {| cm_userId := "B"; cm_message := Some "  hi  ";
       cm_timestamp := None |} in
  let sent :=
    {| out_userId := "B"; out_message := "hi";
       out_timestamp := "2024-01-01T00:00:00.000Z";
       out_name := Some "Bea"; out_photo := None |} in
  wf beaInR2 ∧
  ¬ blank "  hi  " ∧
  (∃ rid users, (rid, users) ∈ beaInR2 ∧ hasSocket "c7" users) ∧
  effects (chatMessage "c7" (Some payload) backendUp beaInR2) =
    [EmitChatMessage "R2" sent; LogRelayedChat sent] ∧
  ∃ before rid users after u lead text trail,
    beaInR2 = before ++ (rid, users) :: after ∧
    (∀ rid' users', (rid', users') ∈ before → ¬ hasSocket "c7" users') ∧
    Js.find (λ u, socketId u = "c7") users = Some u ∧
    "  hi  " = lead +:+ text +:+ trail ∧ blank lead ∧ blank trail ∧
    neat (chars text) ∧
    let out :=
      {| out_userId := "B"; out_message := text;
         out_timestamp := now backendUp;
         out_name := name u; out_photo := photo u |} in
    effects (chatMessage "c7" (Some payload) backendUp beaInR2) =
      [EmitChatMessage rid out; LogRelayedChat out].
Proof.
  intros payload sent.
  assert (wf beaInR2) as Hwf.
  { split; [|by repeat constructor].
    apply NoDup_singleton. }
  assert (¬ blank "  hi  ") as Ht.
  { intros H. apply Forall_forall with (x := "h"%char) in H; [done|].
    right. right. left. }
  assert (∃ rid users, (rid, users) ∈ beaInR2 ∧ hasSocket "c7" users) as Hin.
  { exists "R2", [member "c7" "B" "Bea"]. split; [left | by left]. }
  split_and!; [done..|reflexivity|].
  exact (chat_goes_to_first_room "c7" payload "  hi  " backendUp beaInR2
           Hwf eq_refl Ht Hin).
Defined.

(** ** Joining *)

Lemma some_false uid (users : list OnlineUser) :
  Js.some (λ user, userId user = uid) users = false ↔
  Forall (λ user, userId user ≠ uid) users.
Proof.
  unfold Js.some. rewrite bool_decide_eq_false. symmetry.
  apply Forall_Exists_neg.
Qed.

(** C3 (as the handler has it).  A join of a user the room does not hold
    yet, from a connection the room does not hold, to a room id that is
    tracked or else does not name a member of [Object.prototype].  When
    the backend call of this join fails, whether the backend answers with
    an error status or cannot be reached, the entry that was pushed stays
    in the registry and the handler ends there with the error: the
    connection is not attached to the room's broadcast group, no member
    list is broadcast, and the handler itself logs nothing. *)
Theorem newUser_backend_failure sid userData uid roomId env (reg : Registry) :
  ud_userId userData = Some uid → ud_roomId userData = Some roomId →
  uid ≠ "" → roomId ≠ "" →
  read roomId reg ≠ Inherited →
  let users := default [] (Js.get roomId reg) in
  let body :=
    {| meetingId := roomId; p_userId := uid; p_name := ud_name userData |} in
  ¬ hasSocket sid users →
  Forall (λ user, userId user ≠ uid) users →
  fetch env "POST" addParticipant body ≠ Response true →
  onNewUser sid (Some userData) env reg =
    {| outcome := Thrown;
       registry := Js.set roomId (users ++ [entryOf sid uid userData]) reg;
       effects := [Fetch "POST" addParticipant body] |}.
Proof.
  intros Hu Hr Htu%truthy_ne Htr%truthy_ne Hread users body
    Hsid%findIndex_None Huid%some_false Hfail. cbn [onNewUser].
  rewrite (newUser_run sid userData uid roomId) by done. cbn zeta.
  fold users. rewrite Hsid, Huid. fold body.
  by destruct (fetch env _ _ _) as [|[|]].
Qed.

Lemma newUser_backend_failure_witness :
  read "R1" beaInR2 ≠ Inherited ∧
  Forall (λ user, userId user ≠ "A") (default [] (Js.get "R1" beaInR2)) ∧
  onNewUser "c1" (Some (joinData "A" "Ann" "R1")) backendDown beaInR2 =
    {| outcome := Thrown;
       registry :=
         [("R2", [member "c7" "B" "Bea"]); ("R1", [member "c1" "A" "Ann"])];
       effects :=
         [Fetch "POST" addParticipant
            {| meetingId := "R1"; p_userId := "A"; p_name := Some "Ann" |}] |}.
Proof.
  assert (Forall (λ user, userId user ≠ "A")
            (default [] (Js.get "R1" beaInR2))) as Hnew by constructor.
  assert (read "R1" beaInR2 ≠ Inherited) as Hread by discriminate.
  split_and!; [exact Hread | exact Hnew |].
  refine (newUser_backend_failure "c1" (joinData "A" "Ann" "R1") "A" "R1"
            backendDown beaInR2 eq_refl eq_refl _ _ Hread _ Hnew _).
  - discriminate.
  - discriminate.
  - intros []%Exists_nil.
  - discriminate.
Defined.

(** The claim as the spec has it fails on the handler: with a backend that
    refuses the request, a new-user join ends after the backend call,
    without the attach and without the broadcast. *)
Lemma backend_failure_skips_broadcast :
  let r := handle (Join "c1" (joinData "A" "Ann" "R1")) backendRefuses [] in
  outcome r = Thrown ∧
  registry r = [("R1", [member "c1" "A" "Ann"])] ∧
  (SocketJoin "c1" "R1" ∉ effects r) ∧
  (∀ users, EmitUsersOnline "R1" users ∉ effects r).
Proof.
  cbn zeta. split_and!; [done..| |].
  - intros [?|[]%elem_of_nil]%elem_of_cons. done.
  - intros users [?|[]%elem_of_nil]%elem_of_cons. done.
Qed.

Lemma findIndex_is sid (users : list OnlineUser) i u :
  users !! i = Some u → socketId u = sid →
  (∀ j v, users !! j = Some v → j < i → socketId v ≠ sid) →
  Js.findIndex (λ user, socketId user = sid) users = Some i.
Proof.
  intros Hi Hu Hfirst. unfold Js.findIndex. apply fmap_Some.
  exists (i, u). split; [|done]. by apply list_find_Some.
Qed.

(** After each of the three cases the entry just written is the first
    entry of the connection in the room. *)
Lemma entry_first_after_overwrite sid (users : list OnlineUser) i e :
  socketId e = sid →
  Js.findIndex (λ user, socketId user = sid) users = Some i →
  Js.findIndex (λ user, socketId user = sid) (<[i := e]> users) = Some i ∧
  <[i := e]> users !! i = Some e.
Proof.
  intros He (u & Hi & _ & Hfirst)%findIndex_Some.
  assert (<[i := e]> users !! i = Some e) as Hnew.
  { apply list_lookup_insert_eq. by eapply lookup_lt_Some. }
  split; [|done]. apply (findIndex_is sid _ i e); [done..|].
  intros j v Hj Hlt. rewrite list_lookup_insert_ne in Hj by lia. eauto.
Qed.

Lemma entry_first_after_push sid (users : list OnlineUser) e :
  socketId e = sid →
  Js.findIndex (λ user, socketId user = sid) users = None →
  Js.findIndex (λ user, socketId user = sid) (Js.push users e) =
    Some (length users) ∧
  Js.push users e !! length users = Some e.
Proof.
  intros He Hnone%findIndex_None. unfold Js.push.
  assert ((users ++ [e]) !! length users = Some e) as Hnew.
  { by apply list_lookup_middle. }
  split; [|done]. apply (findIndex_is sid _ _ e); [done..|].
  intros j v Hj Hlt Hv. rewrite lookup_app_l in Hj by done.
  apply Hnone, hasSocket_elem. exists v. split; [|done].
  by eapply list_elem_of_lookup_2.
Qed.

Lemma entry_first_after_rewrite sid uid (users : list OnlineUser) e :
  socketId e = sid →
  Js.findIndex (λ user, socketId user = sid) users = None →
  Js.some (λ user, userId user = uid) users = true →
  ∃ i,
    Js.findIndex (λ user, socketId user = sid) (rewriteUser uid e users) =
      Some i ∧
    rewriteUser uid e users !! i = Some e.
Proof.
  intros He Hnone%findIndex_None Hsome.
  unfold Js.some in Hsome. apply bool_decide_eq_true in Hsome.
  apply Exists_exists in Hsome as (u0 & Hin & Hu0).
  destruct (list_find_elem_of (λ user, userId user = uid) users u0 Hin Hu0)
    as [[i u] Hfind].
  apply list_find_Some in Hfind as (Hi & Hu & Hfirst).
  assert (rewriteUser uid e users !! i = Some e) as Hnew.
  { unfold rewriteUser. rewrite list_lookup_fmap, Hi. cbn.
    by rewrite decide_True. }
  exists i. split; [|done]. apply (findIndex_is sid _ i e); [done..|].
  intros j v Hj Hlt Hv. unfold rewriteUser in Hj.
  rewrite list_lookup_fmap in Hj.
  destruct (users !! j) as [w|] eqn:Hw; [|done]. cbn in Hj.
  rewrite decide_False in Hj by by eapply Hfirst. simplify_eq.
  apply Hnone, hasSocket_elem. exists v. split; [|done].
  by eapply list_elem_of_lookup_2.
Qed.

(** A join that is not dropped leaves the room with the joining connection
    in it, the first entry of the connection being the one just written,
    and touches no other room. *)
Lemma newUser_registry sid userData uid roomId env (reg : Registry) :
  ud_userId userData = Some uid → ud_roomId userData = Some roomId →
  Js.truthy uid = true → Js.truthy roomId = true →
  read roomId reg ≠ Inherited →
  ∃ users i,
    registry (newUser sid userData env reg) = Js.set roomId users reg ∧
    Js.findIndex (λ user, socketId user = sid) users = Some i ∧
    users !! i = Some (entryOf sid uid userData).
Proof.
  intros Hu Hr Htu Htr Hread.
  rewrite (newUser_run sid userData uid roomId) by done. cbn zeta.
  destruct (Js.findIndex _ _) as [i|] eqn:Hi.
  - eexists _, i. split; [done|]. by apply entry_first_after_overwrite.
  - destruct (Js.some _ _) eqn:Hsome.
    + destruct (entry_first_after_rewrite sid uid
                  (default [] (Js.get roomId reg)) (entryOf sid uid userData))
        as (j & ? & ?); [done..|].
      by eexists _, j.
    + eexists _, _. split.
      * by destruct (fetch env _ _ _) as [|[|]].
      * by apply entry_first_after_push.
Qed.

(** C5. The same join delivered twice in a row: whatever the first one
    did and whatever the backend answered to it, the second one leaves the
    whole registry (and so the room's array) as the first one left it and
    makes no backend call.  The second one returns normally, except when
    the join cannot be taken up at all (no payload, or a room id that
    reads as a member of [Object.prototype]): then both throw before they
    have done anything. *)
Theorem join_twice_is_idempotent sid userData env1 env2 (reg : Registry) :
  let first := onNewUser sid userData env1 reg in
  let second := onNewUser sid userData env2 (registry first) in
  registry second = registry first ∧
  fetches (effects second) = [] ∧
  (outcome second = Thrown → first = refused reg ∧ second = refused reg).
Proof.
  cbn zeta. destruct userData as [userData|]; cbn [onNewUser];
    [|by unfold throwTypeError].
  destruct (Js.truthy_opt (ud_userId userData)) eqn:Hu;
    [|by rewrite !newUser_invalid by auto].
  destruct (Js.truthy_opt (ud_roomId userData)) eqn:Hr;
    [|by rewrite !newUser_invalid by auto].
  destruct (ud_userId userData) as [uid|] eqn:Eu; [|done].
  destruct (ud_roomId userData) as [roomId|] eqn:Er; [|done].
  cbn in Hu, Hr.
  destruct (read_Inherited_dec roomId reg) as [Hread|Hread].
  - rewrite (newUser_blocked sid userData uid roomId env1) by done.
    cbn [registry refused].
    by rewrite (newUser_blocked sid userData uid roomId env2) by done.
  - destruct (newUser_registry sid userData uid roomId env1 reg)
      as (users & i & -> & Hi & Hentry); [done..|].
    rewrite (newUser_run sid userData uid roomId);
      [|done..|by rewrite read_set_eq].
    cbn zeta. rewrite get_set_eq. cbn. rewrite Hi.
    rewrite list_insert_id by done. cbn.
    by rewrite set_set.
Qed.

(** ** Leaving *)




(** ** Joining again from fresh connections *)

Lemma deliver_cons_registry env e es (reg : Registry) :
  (deliver ((env, e) :: es) reg).1 =
  (deliver es (registry (handle e env reg))).1.
Proof. cbn. by destruct (deliver es _). Qed.





Section Settled.
Context (uid : string) (users0 : list OnlineUser).

Lemma settled_user e users : settled uid users0 e users → userId e = uid.
Proof.
  intros [Hf _].
  assert (e ∈ filter (λ u, userId u = uid) users) as Hin by (rewrite Hf; left).
  by apply list_elem_of_filter in Hin as [? _].
Qed.





End Settled.







Lemma deliver_reachable es (reg : Registry) :
  reachable reg → reachable (deliver es reg).1.
Proof.
  revert reg. induction es as [|[env e] es IH]; intros reg Hreg; [done|].
  rewrite deliver_cons_registry. by apply IH, reachable_handle.
Qed.


(** ** Disconnecting *)




(** ** One entry per user in a room *)

(** C2 at the input on which the handler breaks it.  Two users are in a
    room, each user id once.  The connection of the second announces
    itself again, now with the user id of the first: the handler
    overwrites the entry of that connection without looking at the other
    entries, and the room holds the user id twice. *)
Lemma reannounce_duplicates_userId :
  reachable twoUsers ∧
  userIdsUnique twoUsers ∧
  registry (newUser "c2" (joinData "A" "Ann" "R") backendUp twoUsers) =
    [("R", [member "c1" "A" "Ann"; member "c2" "A" "Ann"])] ∧
  ¬ userIdsUnique
      (registry (newUser "c2" (joinData "A" "Ann" "R") backendUp twoUsers)).
Proof.
  split_and!.
  - apply deliver_reachable, reachable_start.
  - intros rid users [E|[]%elem_of_nil]%elem_of_cons. simplify_eq. cbn.
    apply NoDup_cons_2; [|apply NoDup_singleton].
    intros ?%list_elem_of_singleton. discriminate.
  - reflexivity.
  - intros H.
    specialize (H "R" [member "c1" "A" "Ann"; member "c2" "A" "Ann"]).
    cbn in H. assert (NoDup ["A"; "A"]) as Hnd by (apply H; left).
    apply NoDup_cons in Hnd as [Hnd _]. apply Hnd. left.
Qed.

(** Every other path of the handlers keeps one entry per user. *)

Lemma userIds_rewriteUser uid e (users : list OnlineUser) :
  userId e = uid → userId <$> rewriteUser uid e users = userId <$> users.
Proof.
  intros He. unfold rewriteUser. rewrite <-list_fmap_compose.
  apply list_fmap_ext. intros i u _. cbn. by case_decide; subst.
Qed.

Lemma userIds_push uid e (users : list OnlineUser) :
  userId e = uid → Forall (λ u, userId u ≠ uid) users →
  NoDup (userId <$> users) → NoDup (userId <$> Js.push users e).
Proof.
  intros He Hnone Hnd. unfold Js.push. rewrite fmap_app. cbn.
  apply NoDup_app. split_and!; [done| |apply NoDup_singleton].
  intros x (u & -> & Hin)%list_elem_of_fmap Hx%list_elem_of_singleton.
  rewrite Forall_forall in Hnone. apply (Hnone u Hin). congruence.
Qed.

Lemma userIds_withoutSocket sid (users : list OnlineUser) :
  NoDup (userId <$> users) → NoDup (userId <$> withoutSocket sid users).
Proof.
  intros Hnd. eapply sublist_NoDup; [done|].
  apply fmap_sublist, sublist_filter.
Qed.

Lemma NoDup_insert_fresh {A} (l : list A) i x :
  NoDup l → x ∉ l → NoDup (<[i := x]> l).
Proof.
  intros Hnd Hx. destruct (decide (i < length l)) as [Hi|Hi];
    [|by rewrite list_insert_ge by lia].
  destruct (lookup_lt_is_Some_2 l i Hi) as [y Hy].
  rewrite insert_take_drop by done.
  rewrite <-(take_drop_middle l i y Hy) in Hnd, Hx.
  apply NoDup_app in Hnd as (Hnd1 & Hdisj & [Hy' Hnd2]%NoDup_cons).
  apply not_elem_of_app in Hx as [Hx1 [_ Hx2]%not_elem_of_cons].
  apply NoDup_app. split_and!; [done| |by apply NoDup_cons_2].
  intros z Hz [->|Hz']%elem_of_cons; [done|].
  apply (Hdisj z Hz). by right.
Qed.

Lemma userIds_overwrite uid e (users : list OnlineUser) i u :
  userId e = uid → users !! i = Some u →
  userId u = uid ∨ Forall (λ v, userId v ≠ uid) users →
  NoDup (userId <$> users) → NoDup (userId <$> <[i := e]> users).
Proof.
  intros He Hi Hcond Hnd. rewrite list_fmap_insert, He.
  destruct Hcond as [Hu|Hnone].
  - rewrite list_insert_id; [done|]. by rewrite list_lookup_fmap, Hi, <-Hu.
  - apply NoDup_insert_fresh; [done|].
    intros (v & -> & Hin)%list_elem_of_fmap.
    rewrite Forall_forall in Hnone. by apply (Hnone v).
Qed.

Lemma findIndex_find sid (users : list OnlineUser) i :
  Js.findIndex (λ user, socketId user = sid) users = Some i →
  ∃ u, Js.find (λ user, socketId user = sid) users = Some u ∧
       users !! i = Some u.
Proof.
  unfold Js.findIndex, Js.find.
  intros ([i' u] & Hfind & ?)%fmap_Some. cbn in *. subst i'.
  exists u. rewrite Hfind. split; [done|].
  by apply list_find_Some in Hfind as (? & _).
Qed.

(** A join keeps one entry per user as long as a connection that is
    already in the room announces the user id it has there or one that
    nobody has there.  That proviso is the gap of the first case of the
    handler; the second and third case need none. *)
Lemma newUser_keeps_userIds_unique sid userData env (reg : Registry) :
  userIdsUnique reg →
  (∀ uid roomId users u,
     ud_userId userData = Some uid → ud_roomId userData = Some roomId →
     Js.get roomId reg = Some users →
     Js.find (λ user, socketId user = sid) users = Some u →
     userId u = uid ∨ Forall (λ v, userId v ≠ uid) users) →
  userIdsUnique (registry (newUser sid userData env reg)).
Proof.
  intros Huniq Hsame.
  destruct (Js.truthy_opt (ud_userId userData)) eqn:Hu;
    [|by rewrite newUser_invalid by auto].
  destruct (Js.truthy_opt (ud_roomId userData)) eqn:Hr;
    [|by rewrite newUser_invalid by auto].
  destruct (ud_userId userData) as [uid|] eqn:Eu; [|done].
  destruct (ud_roomId userData) as [roomId|] eqn:Er; [|done].
  cbn in Hu, Hr.
  destruct (read_Inherited_dec roomId reg) as [Hread|Hread];
    [by rewrite (newUser_blocked sid userData uid roomId) by done|].
  rewrite (newUser_run sid userData uid roomId) by done. cbn zeta.
  assert (NoDup (userId <$> default [] (Js.get roomId reg))) as Hnd.
  { destruct (Js.get roomId reg) as [users|] eqn:Hget; [|apply NoDup_nil_2].
    apply (Huniq roomId). by apply get_Some_elem. }
  assert (∀ users',
    NoDup (userId <$> users') →
    userIdsUnique (Js.set roomId users' reg)) as Hset.
  { intros users' Hnd' rid us [E|Hin]%elem_of_set; [by simplify_eq|].
    by apply (Huniq rid). }
  destruct (Js.findIndex _ _) as [i|] eqn:Hi.
  - apply findIndex_find in Hi as (u & Hfind & Hlook).
    destruct (Js.get roomId reg) as [users|] eqn:Hget; [|done].
    cbn in *. apply Hset.
    apply (userIds_overwrite uid _ users i u); [done..| |done].
    by apply (Hsame uid roomId users u).
  - destruct (Js.some _ _) eqn:Hsome.
    + cbn. apply Hset. by rewrite userIds_rewriteUser.
    + apply some_false in Hsome.
      assert (userIdsUnique (Js.set roomId
        (Js.push (default [] (Js.get roomId reg)) (entryOf sid uid userData))
        reg)) as Hpush by by apply Hset, (userIds_push uid).
      by destruct (fetch env _ _ _) as [|[|]].
Qed.

Lemma swept_elem sid (reg reg' : Registry) rid users' :
  Forall2 (swept sid) reg reg' → (rid, users') ∈ reg' →
  ∃ users, (rid, users) ∈ reg ∧
           (users' = users ∨ users' = withoutSocket sid users).
Proof.
  induction 1 as [|[k us] [k' us'] reg reg' [Hk Hus] _ IH]; cbn in *.
  - by intros ?%elem_of_nil.
  - intros [E|Hin]%elem_of_cons.
    + simplify_eq. exists us. split; [left | done].
    + destruct (IH Hin) as (users & ? & ?). exists users.
      split; [by right | done].
Qed.

(** Disconnects, explicit leaves and chat messages keep one entry per
    user. *)
Lemma removals_keep_userIds_unique e env (reg : Registry) :
  NoDup (Js.keys reg) → userIdsUnique reg →
  (∀ sid userData, e ≠ Join sid userData) →
  userIdsUnique (registry (handle e env reg)).
Proof.
  intros Hnd Huniq Hnojoin.
  destruct e as [sid userData|sid|sid|sid payload|sid roomId|sid]; cbn;
    [| done | | | | done].
  - by destruct (Hnojoin sid userData).
  - rewrite disconnect_forIn.
    destruct (disconnect_loop sid env reg [] Hnd) as (reg' & E & Hsw & _).
    cbn [app] in E. rewrite E. intros rid users' Hin.
    destruct (swept_elem sid reg reg' rid users' Hsw Hin)
      as (users & Hin0 & [->| ->]).
    + by apply (Huniq rid).
    + by apply userIds_withoutSocket, (Huniq rid).
  - by rewrite chatMessage_registry.
  - destruct (Js.truthy_opt roomId) eqn:Ht;
      [|by rewrite leaveCall_untracked by auto].
    destruct roomId as [k|]; [|done]. cbn in Ht.
    destruct (Js.get k reg) as [users|] eqn:Hget;
      [|by destruct (leaveCall_absent sid k env reg Ht Hget) as [-> | ->]].
    assert (userIdsUnique (Js.set k (withoutSocket sid users) reg)) as Hset.
    { intros rid us [E|Hin]%elem_of_set; [|by apply (Huniq rid)].
      simplify_eq. apply userIds_withoutSocket, (Huniq k).
      by apply get_Some_elem. }
    rewrite (leaveCall_run sid k env reg users) by done. cbn zeta.
    destruct (Js.find _ _); [|done].
    by destruct (fetch env _ _ _) as [|[|]].
Qed.

(** * Further properties of the handlers *)

(** ** Where the entries of a room come from *)

Lemma get_elem_NoDup {V} k (v : V) (o : Js.Obj V) :
  NoDup (Js.keys o) → (k, v) ∈ o → Js.get k o = Some v.
Proof.
  intros Hnd (o1 & o2 & ->)%list_elem_of_split.
  apply get_middle. rewrite keys_app, keys_cons in Hnd.
  apply NoDup_app in Hnd as (_ & Hnd & _).
  intros Hin. apply (Hnd k Hin). left.
Qed.

Lemma elem_of_insert_inv {A} (l : list A) i x y :
  y ∈ <[i := x]> l → y = x ∨ y ∈ l.
Proof.
  intros [j Hj]%list_elem_of_lookup. destruct (decide (i = j)) as [->|Hne].
  - destruct (decide (j < length l)) as [Hlt|Hge].
    + rewrite list_lookup_insert_eq in Hj by done. left. congruence.
    + rewrite list_insert_ge in Hj by lia. right.
      by eapply list_elem_of_lookup_2.
  - rewrite list_lookup_insert_ne in Hj by done. right.
    by eapply list_elem_of_lookup_2.
Qed.

Lemma elem_of_rewriteUser uid e (users : list OnlineUser) u :
  u ∈ rewriteUser uid e users → u = e ∨ u ∈ users.
Proof.
  unfold rewriteUser. intros (v & -> & Hv)%list_elem_of_fmap.
  destruct (decide (userId v = uid)); [by left | by right].
Qed.

(** The registry after a join that is not dropped: the room named holds an
    array whose entries are the old ones or the entry of the join. *)
Lemma newUser_room sid userData uid roomId env (reg : Registry) :
  ud_userId userData = Some uid → ud_roomId userData = Some roomId →
  Js.truthy uid = true → Js.truthy roomId = true →
  read roomId reg ≠ Inherited →
  ∃ users',
    registry (newUser sid userData env reg) = Js.set roomId users' reg ∧
    ∀ u, u ∈ users' →
      u = entryOf sid uid userData ∨ u ∈ default [] (Js.get roomId reg).
Proof.
  intros Hu Hr Htu Htr Hread.
  rewrite (newUser_run sid userData uid roomId) by done. cbn zeta.
  destruct (Js.findIndex _ _) as [i|].
  - eexists. split; [done|]. intros u. apply elem_of_insert_inv.
  - destruct (Js.some _ _).
    + eexists. split; [done|]. intros u. apply elem_of_rewriteUser.
    + exists (Js.push (default [] (Js.get roomId reg))
                (entryOf sid uid userData)).
      split; [by destruct (fetch env _ _ _) as [|[|]]|].
      intros u [?|?%list_elem_of_singleton]%elem_of_app; [by right | by left].
Qed.

Lemma default_get_elem k (reg : Registry) u :
  u ∈ default [] (Js.get k reg) →
  ∃ users, (k, users) ∈ reg ∧ u ∈ users.
Proof.
  destruct (Js.get k reg) as [users|] eqn:E; cbn.
  - intros ?. exists users. split; [by apply get_Some_elem | done].
  - by intros ?%elem_of_nil.
Qed.

Lemma handle_members e env (reg : Registry) rid users' u :
  NoDup (Js.keys reg) →
  (rid, users') ∈ registry (handle e env reg) → u ∈ users' →
  (∃ users, (rid, users) ∈ reg ∧ u ∈ users) ∨
  (∃ sid userData uid,
     e = Join sid userData ∧ ud_userId userData = Some uid ∧ uid ≠ "" ∧
     ud_roomId userData = Some rid ∧ u = entryOf sid uid userData).
Proof.
  intros Hnd.
  destruct e as [sid userData|sid|sid|sid payload|sid roomId|sid]; cbn;
    [| left; by exists users' | | | | left; by exists users'].
  - destruct (Js.truthy_opt (ud_userId userData)) eqn:Hu;
      [|rewrite newUser_invalid by auto; left; by exists users'].
    destruct (Js.truthy_opt (ud_roomId userData)) eqn:Hr;
      [|rewrite newUser_invalid by auto; left; by exists users'].
    destruct (ud_userId userData) as [uid|] eqn:Eu; [|done].
    destruct (ud_roomId userData) as [roomId|] eqn:Er; [|done].
    cbn in Hu, Hr.
    destruct (read_Inherited_dec roomId reg) as [Hread|Hread];
      [rewrite (newUser_blocked sid userData uid roomId) by done;
       left; by exists users'|].
    destruct (newUser_room sid userData uid roomId env reg)
      as (users1 & -> & Hfrom); [done..|].
    intros [E|Hin]%elem_of_set Hu'; [|left; by exists users'].
    simplify_eq. destruct (Hfrom u Hu') as [->|Hold].
    + right. exists sid, userData, uid. split_and!; try done.
      by apply truthy_ne.
    + left. by apply default_get_elem.
  - rewrite disconnect_forIn.
    destruct (disconnect_loop sid env reg [] Hnd) as (reg' & E & Hsw & _).
    cbn [app] in E. rewrite E. intros Hin Hu. left.
    destruct (swept_elem sid reg reg' rid users' Hsw Hin)
      as (users & Hin0 & [->| ->]); exists users; [done|].
    split; [done|]. by apply withoutSocket_elem in Hu as [_ ?].
  - rewrite chatMessage_registry. intros. left. by exists users'.
  - destruct (Js.truthy_opt roomId) eqn:Ht;
      [|rewrite leaveCall_untracked by auto; left; by exists users'].
    destruct roomId as [k|]; [|done]. cbn in Ht.
    destruct (Js.get k reg) as [users|] eqn:Hget;
      [|destruct (leaveCall_absent sid k env reg Ht Hget) as [-> | ->];
        left; by exists users'].
    assert (registry (leaveCall sid (Some k) env reg) =
            Js.set k (withoutSocket sid users) reg) as ->.
    { rewrite (leaveCall_run sid k env reg users) by done. cbn zeta.
      destruct (Js.find _ _); [|done].
      by destruct (fetch env _ _ _) as [|[|]]. }
    intros [E|Hin]%elem_of_set Hu; left; [|by exists users'].
    simplify_eq. exists users. split; [by apply get_Some_elem|].
    by apply withoutSocket_elem in Hu as [_ ?].
Qed.

(** X1. No handler invents an entry or moves one between rooms: on a
    registry with distinct room ids, an entry found in a room after an
    event was in that room before, or it is the entry that the join being
    handled has built for that very room, from a user id that is not
    empty. *)
Theorem members_come_from_joins e env (reg : Registry) rid users' u :
  NoDup (Js.keys reg) →
  (rid, users') ∈ registry (handle e env reg) → u ∈ users' →
  (∃ users, (rid, users) ∈ reg ∧ u ∈ users) ∨
  (∃ sid userData uid,
     e = Join sid userData ∧ ud_userId userData = Some uid ∧ uid ≠ "" ∧
     ud_roomId userData = Some rid ∧
     u = {| socketId := sid; userId := uid; name := ud_name userData;
            photo := ud_photo userData |}).
Proof. apply handle_members. Qed.

Lemma members_come_from_joins_witness :
  let e := Join "c1" (joinData "A" "Ann" "R2") in
  NoDup (Js.keys beaInR2) ∧
  ("R2", [member "c7" "B" "Bea"; member "c1" "A" "Ann"]) ∈
    registry (handle e backendUp beaInR2) ∧
  ((∃ users, ("R2", users) ∈ beaInR2 ∧ member "c1" "A" "Ann" ∈ users) ∨
   (∃ sid userData uid,
      e = Join sid userData ∧ ud_userId userData = Some uid ∧ uid ≠ "" ∧
      ud_roomId userData = Some "R2" ∧
      member "c1" "A" "Ann" =
        {| socketId := sid; userId := uid; name := ud_name userData;
           photo := ud_photo userData |})).
Proof.
  intros e.
  assert (NoDup (Js.keys beaInR2)) as Hnd by apply NoDup_singleton.
  assert (("R2", [member "c7" "B" "Bea"; member "c1" "A" "Ann"]) ∈
            registry (handle e backendUp beaInR2)) as Hin by left.
  split_and!; [exact Hnd | exact Hin |].
  apply (members_come_from_joins e backendUp beaInR2 "R2" _ _ Hnd Hin).
  right. left.
Defined.

Lemma handle_userIdsTruthy e env (reg : Registry) :
  NoDup (Js.keys reg) → userIdsTruthy reg →
  userIdsTruthy (registry (handle e env reg)).
Proof.
  intros Hnd Hold rid users' u Hin Hu.
  destruct (handle_members e env reg rid users' u Hnd Hin Hu)
    as [(users & ? & ?)|(sid & userData & uid & _ & _ & ? & _ & ->)].
  - by apply (Hold rid users).
  - done.
Qed.

(** X2. In every registry the server can reach, the room ids are distinct
    and none is empty, and every entry of every room has a user id that is
    not empty. *)
Theorem reachable_registry_is_sound (reg : Registry) :
  reachable reg →
  NoDup (Js.keys reg) ∧
  Forall (λ k, k ≠ "") (Js.keys reg) ∧
  userIdsTruthy reg.
Proof.
  intros Hreach.
  assert (wf reg ∧ userIdsTruthy reg) as [[Hnd Hkeys] Hids].
  { induction Hreach as [|reg env e Hreach [Hwf Hids]].
    - split; [apply wf_nil|]. by intros rid users u ?%elem_of_nil.
    - split; [by apply handle_wf|].
      apply handle_userIdsTruthy; [apply Hwf | done]. }
  split_and!; [done| |done].
  eapply Forall_impl; [done|]. intros k. apply truthy_ne.
Qed.

Lemma reachable_registry_is_sound_witness :
  reachable inTwoRooms ∧
  NoDup (Js.keys inTwoRooms) ∧
  Forall (λ k, k ≠ "") (Js.keys inTwoRooms) ∧
  userIdsTruthy inTwoRooms.
Proof.
  assert (reachable inTwoRooms) as Hreach.
  { apply (reachable_handle _ backendUp (Join "c1" (joinData "A" "Ann" "R2"))).
    apply (reachable_handle _ backendUp (Join "c1" (joinData "A" "Ann" "R1"))).
    apply reachable_start. }
  split; [exact Hreach|].
  exact (reachable_registry_is_sound inTwoRooms Hreach).
Defined.

(** ** What is broadcast *)

Lemma disconnect_loop_emits sid env (todo past : Registry) :
  NoDup (Js.keys (past ++ todo)) →
  ∃ todo',
    registry (forIn (Js.keys todo) (disconnectRoom sid) env (past ++ todo)) =
      past ++ todo' ∧
    Js.keys todo' = Js.keys todo ∧
    ∀ rid us,
      EmitUsersOnline rid us ∈
        effects (forIn (Js.keys todo) (disconnectRoom sid) env (past ++ todo)) →
      (rid, us) ∈ todo' ∧
      ∃ users, (rid, users) ∈ todo ∧ hasSocket sid users ∧
               us = withoutSocket sid users.
Proof.
  revert past. induction todo as [|[k users] todo IH]; intros past Hnd.
  { exists []. cbn. split_and!; [done..|]. by intros ?? ?%elem_of_nil. }
  assert (k ∉ Js.keys past) as Hk.
  { rewrite keys_app, keys_cons in Hnd.
    apply NoDup_app in Hnd as (_ & Hnd & _).
    intros Hin. apply (Hnd k Hin). left. }
  rewrite keys_cons, forIn_cons.
  rewrite (disconnectRoom_run sid k env _ users) by by apply get_middle.
  destruct (Js.find _ users) as [u|] eqn:Hfind; cbn zeta.
  - assert (hasSocket sid users) as Hhas.
    { apply dec_stable. intros Hno%find_None. congruence. }
    rewrite set_middle by done.
    destruct (fetch env _ _ _) as [|[|]] eqn:Hfetch; cbn.
    + exists ((k, withoutSocket sid users) :: todo). split_and!; [done..|].
      intros rid us [?|[]%elem_of_nil]%elem_of_cons. done.
    + destruct (IH (past ++ [(k, withoutSocket sid users)]))
        as (todo' & Hreg & Hkeys & Hemit).
      { rewrite <-app_assoc. cbn. by rewrite keys_app, keys_cons in *. }
      rewrite <-!app_assoc in Hreg. rewrite <-app_assoc in Hemit. cbn in *.
      exists ((k, withoutSocket sid users) :: todo'). split_and!.
      * done.
      * by rewrite !keys_cons, Hkeys.
      * intros rid us [?|[E|Hin]%elem_of_cons]%elem_of_cons; [done| |].
        -- simplify_eq. split; [left|]. exists users. split; [left | done].
        -- destruct (Hemit rid us Hin) as (? & users0 & ? & ? & ?).
           split; [by right|]. exists users0. split; [by right | done].
    + exists ((k, withoutSocket sid users) :: todo). split_and!; [done..|].
      intros rid us [?|[]%elem_of_nil]%elem_of_cons. done.
  - cbn.
    destruct (IH (past ++ [(k, users)])) as (todo' & Hreg & Hkeys & Hemit).
    { by rewrite <-app_assoc. }
    rewrite <-!app_assoc in Hreg. rewrite <-app_assoc in Hemit. cbn in *.
    exists ((k, users) :: todo'). split_and!.
    + done.
    + by rewrite !keys_cons, Hkeys.
    + intros rid us Hin.
      destruct (Hemit rid us Hin) as (? & users0 & ? & ? & ?).
      split; [by right|]. exists users0. split; [by right | done].
Qed.

Lemma disconnect_emits sid env (reg : Registry) rid us :
  NoDup (Js.keys reg) →
  EmitUsersOnline rid us ∈ effects (disconnect sid env reg) →
  Js.get rid (registry (disconnect sid env reg)) = Some us ∧
  ¬ hasSocket sid us.
Proof.
  intros Hnd. rewrite disconnect_forIn.
  destruct (disconnect_loop_emits sid env reg [] Hnd)
    as (reg' & Hreg & Hkeys & Hemit).
  cbn [app] in *. rewrite Hreg. intros Hin.
  destruct (Hemit rid us Hin) as (Hin' & users & _ & _ & ->).
  split; [|apply withoutSocket_clean].
  apply get_elem_NoDup; [by rewrite Hkeys | done].
Qed.

Lemma newUser_emits sid userData env (reg : Registry) rid us :
  EmitUsersOnline rid us ∈ effects (newUser sid userData env reg) →
  ud_roomId userData = Some rid ∧
  Js.get rid (registry (newUser sid userData env reg)) = Some us ∧
  hasSocket sid us.
Proof.
  destruct (Js.truthy_opt (ud_userId userData)) eqn:Hu;
    [|rewrite newUser_invalid by auto; by intros ?%elem_of_nil].
  destruct (Js.truthy_opt (ud_roomId userData)) eqn:Hr;
    [|rewrite newUser_invalid by auto; by intros ?%elem_of_nil].
  destruct (ud_userId userData) as [uid|] eqn:Eu; [|done].
  destruct (ud_roomId userData) as [roomId|] eqn:Er; [|done].
  cbn in Hu, Hr.
  destruct (read_Inherited_dec roomId reg) as [Hread|Hread];
    [rewrite (newUser_blocked sid userData uid roomId) by done;
     by intros ?%elem_of_nil|].
  destruct (newUser_registry sid userData uid roomId env reg)
    as (users1 & i & Hreg & Hi & Hentry); [done..|].
  assert (hasSocket sid users1) as Hhas.
  { apply hasSocket_elem. exists (entryOf sid uid userData).
    split; [by eapply list_elem_of_lookup_2 | done]. }
  rewrite Hreg.
  assert (∀ users' : list OnlineUser,
    Js.set roomId users' reg = Js.set roomId users1 reg → users' = users1)
    as Hinj.
  { intros users' E.
    assert (Js.get roomId (Js.set roomId users' reg) = Some users1)
      as E' by (rewrite E; apply get_set_eq).
    rewrite get_set_eq in E'. congruence. }
  rewrite (newUser_run sid userData uid roomId) in Hreg |- * by done.
  cbn zeta in Hreg |- *.
  destruct (Js.findIndex (λ user, socketId user = sid)
              (default [] (Js.get roomId reg))) as [j|]; cbn in Hreg |- *.
  - apply Hinj in Hreg.
    intros [?|[?|[]%elem_of_nil]%elem_of_cons]%elem_of_cons; simplify_eq.
    by rewrite get_set_eq.
  - destruct (Js.some _ _); cbn in Hreg |- *.
    + apply Hinj in Hreg.
      intros [?|[?|[]%elem_of_nil]%elem_of_cons]%elem_of_cons; simplify_eq.
      by rewrite get_set_eq.
    + destruct (fetch env _ _ _) as [|[|]]; cbn in Hreg |- *;
        apply Hinj in Hreg.
      * intros [?|[]%elem_of_nil]%elem_of_cons. done.
      * intros [?|[?|[?|[]%elem_of_nil]%elem_of_cons]%elem_of_cons]%elem_of_cons;
          simplify_eq. by rewrite get_set_eq.
      * intros [?|[]%elem_of_nil]%elem_of_cons. done.
Qed.

Lemma leaveCall_emits sid roomId env (reg : Registry) rid us :
  EmitUsersOnline rid us ∈ effects (leaveCall sid roomId env reg) →
  roomId = Some rid ∧
  Js.get rid (registry (leaveCall sid roomId env reg)) = Some us ∧
  ¬ hasSocket sid us.
Proof.
  destruct (Js.truthy_opt roomId) eqn:Ht;
    [|rewrite leaveCall_untracked by auto; by intros ?%elem_of_nil].
  destruct roomId as [k|]; [|done]. cbn in Ht.
  destruct (Js.get k reg) as [users|] eqn:Hget;
    [|destruct (leaveCall_absent sid k env reg Ht Hget) as [-> | ->];
      by intros ?%elem_of_nil].
  rewrite (leaveCall_run sid k env reg users) by done. cbn zeta.
  destruct (Js.find _ _); [destruct (fetch env _ _ _) as [|[|]]|]; cbn.
  - intros [?|[]%elem_of_nil]%elem_of_cons. done.
  - intros [?|[?|[?|[?|[]%elem_of_nil]%elem_of_cons]%elem_of_cons]%elem_of_cons]%elem_of_cons;
      simplify_eq.
    split_and!; [done | apply get_set_eq | apply withoutSocket_clean].
  - intros [?|[]%elem_of_nil]%elem_of_cons. done.
  - intros [?|[?|[]%elem_of_nil]%elem_of_cons]%elem_of_cons; simplify_eq.
    split_and!; [done | apply get_set_eq | apply withoutSocket_clean].
Qed.

Lemma chatMessage_emits sid payload env (reg : Registry) rid us :
  EmitUsersOnline rid us ∉ effects (chatMessage sid payload env reg).
Proof.
  destruct (Js.truthy_opt (Js.trim <$> (payload ≫= cm_message))) eqn:E.
  - destruct payload as [payload|]; [|done]. cbn in E.
    destruct (cm_message payload) as [msg|] eqn:Hm; [|done].
    rewrite (chatMessage_run _ _ msg) by done. cbn zeta.
    destruct (Js.truthy_opt (fst <$> findSender sid (Js.keys reg) reg)); cbn.
    + intros [?|[?|[]%elem_of_nil]%elem_of_cons]%elem_of_cons; done.
    + intros [?|[]%elem_of_nil]%elem_of_cons. done.
  - rewrite chatMessage_invalid by done. by intros ?%elem_of_nil.
Qed.

(** X3. A handler that runs without another event being handled while it
    waits for the backend (every run that makes no backend call is such a
    run): every member list it broadcasts is the array that the registry
    holds for that room when the handler is done, whichever event it is
    and whether or not the handler ends with an exception. *)
Theorem broadcast_is_current_members e env (reg : Registry) rid us :
  NoDup (Js.keys reg) →
  EmitUsersOnline rid us ∈ effects (handle e env reg) →
  Js.get rid (registry (handle e env reg)) = Some us.
Proof.
  intros Hnd.
  destruct e as [sid userData|sid|sid|sid payload|sid roomId|sid]; cbn.
  - by intros (_ & ? & _)%newUser_emits.
  - by intros ?%elem_of_nil.
  - by intros [? _]%disconnect_emits.
  - by intros ?%chatMessage_emits.
  - by intros (_ & ? & _)%leaveCall_emits.
  - by intros ?%elem_of_nil.
Qed.

Lemma broadcast_is_current_members_witness :
  let r := handle (Disconnect "c1") backendUp inTwoRooms in
  NoDup (Js.keys inTwoRooms) ∧
  EmitUsersOnline "R2" [] ∈ effects r ∧
  Js.get "R2" (registry r) = Some [].
Proof.
  intros r.
  assert (NoDup (Js.keys inTwoRooms)) as Hnd.
  { apply NoDup_cons_2; [|apply NoDup_singleton].
    intros ?%list_elem_of_singleton. discriminate. }
  assert (EmitUsersOnline "R2" [] ∈ effects r) as Hin.
  { do 3 right. left. }
  split_and!; [exact Hnd | exact Hin |].
  exact (broadcast_is_current_members _ backendUp inTwoRooms "R2" [] Hnd Hin).
Defined.

(** X4. A handler that runs without another event being handled while it
    waits for the backend: the member list broadcast for a join holds the
    joining connection; the lists broadcast for a disconnect or an
    explicit leave never hold the connection that went away. *)
Theorem broadcast_and_the_connection env (reg : Registry) sid rid us :
  NoDup (Js.keys reg) →
  (∀ userData,
     EmitUsersOnline rid us ∈ effects (newUser sid userData env reg) →
     hasSocket sid us) ∧
  (EmitUsersOnline rid us ∈ effects (disconnect sid env reg) →
   ¬ hasSocket sid us) ∧
  (∀ roomId,
     EmitUsersOnline rid us ∈ effects (leaveCall sid roomId env reg) →
     ¬ hasSocket sid us).
Proof.
  intros Hnd. split_and!.
  - by intros userData (_ & _ & ?)%newUser_emits.
  - by intros [_ ?]%disconnect_emits.
  - by intros roomId (_ & _ & ?)%leaveCall_emits.
Qed.

Lemma broadcast_and_the_connection_witness :
  NoDup (Js.keys beaInR2) ∧
  EmitUsersOnline "R2" [] ∈ effects (disconnect "c7" backendUp beaInR2) ∧
  ¬ hasSocket "c7" [].
Proof.
  assert (NoDup (Js.keys beaInR2)) as Hnd by apply NoDup_singleton.
  assert (EmitUsersOnline "R2" [] ∈
            effects (disconnect "c7" backendUp beaInR2)) as Hin.
  { right. left. }
  split_and!; [exact Hnd | exact Hin |].
  destruct (broadcast_and_the_connection backendUp beaInR2 "c7" "R2" [] Hnd)
    as (_ & Hdisc & _).
  exact (Hdisc Hin).
Defined.

(** ** Rooms stay, and a join or a leave is confined to its room *)

Lemma handle_keys e env (reg : Registry) :
  NoDup (Js.keys reg) →
  Js.keys (registry (handle e env reg)) ≡ₚ Js.keys reg ∨
  ∃ sid userData k,
    e = Join sid userData ∧ ud_roomId userData = Some k ∧
    (k ∉ Js.keys reg) ∧
    Js.keys (registry (handle e env reg)) ≡ₚ k :: Js.keys reg.
Proof.
  intros Hnd.
  destruct e as [sid userData|sid|sid|sid payload|sid roomId|sid]; cbn;
    [| by left | | | | by left].
  - destruct (Js.truthy_opt (ud_userId userData)) eqn:Hu;
      [|rewrite newUser_invalid by auto; by left].
    destruct (Js.truthy_opt (ud_roomId userData)) eqn:Hr;
      [|rewrite newUser_invalid by auto; by left].
    destruct (ud_userId userData) as [uid|] eqn:Eu; [|done].
    destruct (ud_roomId userData) as [roomId|] eqn:Er; [|done].
    cbn in Hu, Hr.
    destruct (read_Inherited_dec roomId reg) as [Hread|Hread];
      [rewrite (newUser_blocked sid userData uid roomId) by done; by left|].
    destruct (newUser_room sid userData uid roomId env reg)
      as (users1 & -> & _); [done..|].
    pose proof (keys_set roomId users1 reg) as Hkeys.
    destruct (Js.get roomId reg) eqn:Hget; [by left|].
    right. exists sid, userData, roomId. split_and!; try done.
    by apply get_None.
  - left. rewrite disconnect_forIn.
    destruct (disconnect_loop sid env reg [] Hnd) as (reg' & E & Hsw & _).
    cbn [app] in E. rewrite E. by rewrite (swept_keys sid reg reg').
  - left. by rewrite chatMessage_registry.
  - left. destruct (Js.truthy_opt roomId) eqn:Ht;
      [|by rewrite leaveCall_untracked by auto].
    destruct roomId as [k|]; [|done]. cbn in Ht.
    destruct (Js.get k reg) as [users|] eqn:Hget;
      [|by destruct (leaveCall_absent sid k env reg Ht Hget) as [-> | ->]].
    assert (registry (leaveCall sid (Some k) env reg) =
            Js.set k (withoutSocket sid users) reg) as ->.
    { rewrite (leaveCall_run sid k env reg users) by done. cbn zeta.
      destruct (Js.find _ _); [|done].
      by destruct (fetch env _ _ _) as [|[|]]. }
    pose proof (keys_set k (withoutSocket sid users) reg) as Hkeys.
    by rewrite Hget in Hkeys.
Qed.

(** X5. No handler ever removes a room: a room that is tracked stays
    tracked through every event, also when its last member goes, and the
    only way a room comes into being is a join that names it. *)
Theorem rooms_are_never_removed e env (reg : Registry) :
  NoDup (Js.keys reg) →
  (∀ k, k ∈ Js.keys reg → k ∈ Js.keys (registry (handle e env reg))) ∧
  (∀ k, k ∈ Js.keys (registry (handle e env reg)) → k ∉ Js.keys reg →
     ∃ sid userData, e = Join sid userData ∧ ud_roomId userData = Some k).
Proof.
  intros Hnd.
  destruct (handle_keys e env reg Hnd)
    as [Hsame|(sid & userData & k0 & -> & Hk0 & Hnew & Hgrown)].
  - split; intros k; rewrite Hsame; [done|]. by intros ??.
  - split; intros k; rewrite Hgrown.
    + intros ?. by right.
    + intros [->|?]%elem_of_cons ?; [|done]. by exists sid, userData.
Qed.

Lemma rooms_are_never_removed_witness :
  let r := handle (Disconnect "c7") backendUp beaInR2 in
  NoDup (Js.keys beaInR2) ∧
  "R2" ∈ Js.keys beaInR2 ∧
  registry r = [("R2", [])] ∧
  "R2" ∈ Js.keys (registry r).
Proof.
  intros r.
  assert (NoDup (Js.keys beaInR2)) as Hnd by apply NoDup_singleton.
  assert ("R2" ∈ Js.keys beaInR2) as Hin by left.
  split_and!; [exact Hnd | exact Hin | reflexivity |].
  exact (proj1 (rooms_are_never_removed (Disconnect "c7") backendUp beaInR2 Hnd)
           "R2" Hin).
Defined.

(** X6. A join and an explicit leave are confined to the room they name:
    every other room reads after the handler as it read before, whatever
    the payload and whatever the backend answers. *)
Theorem join_and_leave_touch_one_room sid env (reg : Registry) k :
  (∀ userData,
     ud_roomId userData ≠ Some k →
     Js.get k (registry (newUser sid userData env reg)) = Js.get k reg) ∧
  (∀ roomId,
     roomId ≠ Some k →
     Js.get k (registry (leaveCall sid roomId env reg)) = Js.get k reg).
Proof.
  split.
  - intros userData Hk.
    destruct (Js.truthy_opt (ud_userId userData)) eqn:Hu;
      [|by rewrite newUser_invalid by auto].
    destruct (Js.truthy_opt (ud_roomId userData)) eqn:Hr;
      [|by rewrite newUser_invalid by auto].
    destruct (ud_userId userData) as [uid|] eqn:Eu; [|done].
    destruct (ud_roomId userData) as [roomId|] eqn:Er; [|done].
    cbn in Hu, Hr.
    destruct (read_Inherited_dec roomId reg) as [Hread|Hread];
      [by rewrite (newUser_blocked sid userData uid roomId) by done|].
    destruct (newUser_room sid userData uid roomId env reg)
      as (users1 & -> & _); [done..|].
    apply get_set_ne. congruence.
  - intros roomId Hk.
    destruct (Js.truthy_opt roomId) eqn:Ht;
      [|by rewrite leaveCall_untracked by auto].
    destruct roomId as [k0|]; [|done]. cbn in Ht.
    destruct (Js.get k0 reg) as [users|] eqn:Hget;
      [|by destruct (leaveCall_absent sid k0 env reg Ht Hget) as [-> | ->]].
    rewrite (leaveCall_run sid k0 env reg users) by done. cbn zeta.
    assert (Js.get k (Js.set k0 (withoutSocket sid users) reg) = Js.get k reg)
      as Hother by (apply get_set_ne; congruence).
    destruct (Js.find _ _); [|done].
    by destruct (fetch env _ _ _) as [|[|]].
Qed.

Lemma join_and_leave_touch_one_room_witness :
  ud_roomId (joinData "A" "Ann" "R1") ≠ Some "R2" ∧
  Js.get "R2"
    (registry (newUser "c7" (joinData "A" "Ann" "R1") backendDown beaInR2)) =
    Js.get "R2" beaInR2.
Proof.
  assert (ud_roomId (joinData "A" "Ann" "R1") ≠ Some "R2") as Hne
    by discriminate.
  split; [exact Hne|].
  exact (proj1 (join_and_leave_touch_one_room "c7" backendDown beaInR2 "R2")
           (joinData "A" "Ann" "R1") Hne).
Defined.

(** X7. A join that is not dropped, to a room id that is tracked or else
    does not name a member of [Object.prototype], handled without another
    event being handled while it waits for the backend: when the handler
    is done the connection is in the room, and the first entry it has
    there is the one just announced, with that user id, name and photo.
    This holds whichever of the three cases the join took and also when
    the backend call failed. *)
Theorem joined_connection_is_listed sid userData uid roomId env
    (reg : Registry) :
  ud_userId userData = Some uid → ud_roomId userData = Some roomId →
  uid ≠ "" → roomId ≠ "" →
  read roomId reg ≠ Inherited →
  ∃ users,
    Js.get roomId (registry (onNewUser sid (Some userData) env reg)) =
      Some users ∧
    Js.find (λ u, socketId u = sid) users =
      Some {| socketId := sid; userId := uid; name := ud_name userData;
              photo := ud_photo userData |}.
Proof.
  intros Hu Hr Htu%truthy_ne Htr%truthy_ne Hread. cbn [onNewUser].
  destruct (newUser_registry sid userData uid roomId env reg)
    as (users & i & -> & Hi & Hentry); [done..|].
  exists users. split; [apply get_set_eq|].
  apply findIndex_find in Hi as (u & -> & Hu').
  rewrite Hentry in Hu'. by simplify_eq.
Qed.

Lemma joined_connection_is_listed_witness :
  read "R2" beaInR2 ≠ Inherited ∧
  ∃ users,
    Js.get "R2"
      (registry (onNewUser "c1" (Some (joinData "B" "Bea 2" "R2"))
                   backendDown beaInR2)) = Some users ∧
    Js.find (λ u, socketId u = "c1") users =
      Some {| socketId := "c1"; userId := "B"; name := Some "Bea 2";
              photo := None |}.
Proof.
  assert (read "R2" beaInR2 ≠ Inherited) as Hread by discriminate.
  split; [exact Hread|].
  apply (joined_connection_is_listed "c1" (joinData "B" "Bea 2" "R2") "B" "R2"
           backendDown beaInR2 eq_refl eq_refl); [discriminate..|exact Hread].
Defined.

(** ** How many entries there are *)

#[global] Arguments population : simpl never.

Lemma population_cons k users (reg : Registry) :
  population ((k, users) :: reg) = length users + population reg.
Proof. done. Qed.

Lemma population_app (reg1 reg2 : Registry) :
  population (reg1 ++ reg2) = population reg1 + population reg2.
Proof.
  induction reg1 as [|[k users] reg1 IH]; [done|].
  cbn [app]. rewrite !population_cons, IH. lia.
Qed.

Lemma population_replace k users (reg : Registry) :
  population (Js.replace k users reg) + length (default [] (Js.get k reg)) =
  population reg +
    (if Js.get k reg is Some _ then length users else 0).
Proof.
  unfold Js.get. induction reg as [|[k1 us1] reg IH]; [done|].
  cbn [Js.replace]. cbn -[population].
  destruct (decide (k1 = k)); cbn -[population].
  - rewrite !population_cons. lia.
  - rewrite !population_cons. fold (Js.get k reg) in *. lia.
Qed.

Lemma population_defineIndex n k users (reg : Registry) :
  population (Js.defineIndex n k users reg) = length users + population reg.
Proof.
  induction reg as [|[k1 us1] reg IH]; [done|].
  cbn [Js.defineIndex].
  destruct (Js.arrayIndex k1) as [n1|]; [destruct (n1 <? n)%N|];
    rewrite ?population_cons, ?IH; lia.
Qed.

Lemma population_set k users (reg : Registry) :
  population (Js.set k users reg) + length (default [] (Js.get k reg)) =
  population reg + length users.
Proof.
  unfold Js.set. destruct (Js.get k reg) eqn:E.
  - pose proof (population_replace k users reg) as H. by rewrite E in H.
  - cbn. unfold Js.define. destruct (Js.arrayIndex k).
    + rewrite population_defineIndex. lia.
    + rewrite population_app, population_cons.
      change (population []) with 0. cbn. lia.
Qed.

Lemma population_swept sid (reg reg' : Registry) :
  Forall2 (swept sid) reg reg' → population reg' ≤ population reg.
Proof.
  induction 1 as [|[k us] [k' us'] reg reg' [_ Hus] _ IH]; [done|].
  rewrite !population_cons. cbn in Hus.
  assert (length us' ≤ length us); [|lia].
  destruct Hus as [->| ->]; [done|]. apply length_filter.
Qed.

(** X8. An event adds at most one entry to the registry, and only a join
    can add one: disconnects, leaves and chat messages never make the
    registry larger. *)
Theorem population_grows_by_joins_only e env (reg : Registry) :
  NoDup (Js.keys reg) →
  population (registry (handle e env reg)) ≤ S (population reg) ∧
  ((∀ sid userData, e ≠ Join sid userData) →
   population (registry (handle e env reg)) ≤ population reg).
Proof.
  intros Hnd.
  destruct e as [sid userData|sid|sid|sid payload|sid roomId|sid]; cbn;
    [| split; [lia | intros; lia] | | | | split; [lia | intros; lia]].
  - split; [|intros H; by destruct (H sid userData)].
    destruct (Js.truthy_opt (ud_userId userData)) eqn:Hu;
      [|rewrite newUser_invalid by auto; cbn; lia].
    destruct (Js.truthy_opt (ud_roomId userData)) eqn:Hr;
      [|rewrite newUser_invalid by auto; cbn; lia].
    destruct (ud_userId userData) as [uid|] eqn:Eu; [|done].
    destruct (ud_roomId userData) as [roomId|] eqn:Er; [|done].
    cbn in Hu, Hr.
    destruct (read_Inherited_dec roomId reg) as [Hread|Hread];
      [rewrite (newUser_blocked sid userData uid roomId) by done; cbn; lia|].
    rewrite (newUser_run sid userData uid roomId) by done. cbn zeta.
    set (users := default [] (Js.get roomId reg)).
    assert (∀ users', length users' ≤ S (length users) →
      population (Js.set roomId users' reg) ≤ S (population reg)) as Hset.
    { intros users' Hlen.
      pose proof (population_set roomId users' reg). fold users in H. lia. }
    destruct (Js.findIndex _ _); [|destruct (Js.some _ _)].
    + cbn. apply Hset. rewrite length_insert. lia.
    + cbn. apply Hset. unfold rewriteUser. rewrite length_fmap. lia.
    + assert (population (Js.set roomId
                (Js.push users (entryOf sid uid userData)) reg) ≤
              S (population reg)) as Hpush.
      { apply Hset. unfold Js.push. rewrite length_app. cbn. lia. }
      by destruct (fetch env _ _ _) as [|[|]].
  - rewrite disconnect_forIn.
    destruct (disconnect_loop sid env reg [] Hnd) as (reg' & E & Hsw & _).
    cbn [app] in E. rewrite E.
    pose proof (population_swept sid reg reg' Hsw). split; [lia|done].
  - rewrite chatMessage_registry. split; [lia|done].
  - assert (population (registry (leaveCall sid roomId env reg)) ≤
            population reg) as Hle; [|split; [lia|done]].
    destruct (Js.truthy_opt roomId) eqn:Ht;
      [|by rewrite leaveCall_untracked by auto].
    destruct roomId as [k|]; [|done]. cbn in Ht.
    destruct (Js.get k reg) as [users|] eqn:Hget;
      [|by destruct (leaveCall_absent sid k env reg Ht Hget) as [-> | ->]].
    assert (population (Js.set k (withoutSocket sid users) reg) ≤
            population reg) as Hset.
    { pose proof (population_set k (withoutSocket sid users) reg) as H.
      rewrite Hget in H. cbn in H.
      pose proof (length_filter (λ u, socketId u ≠ sid) users).
      unfold withoutSocket in *. lia. }
    rewrite (leaveCall_run sid k env reg users) by done. cbn zeta.
    destruct (Js.find _ _); [|done].
    by destruct (fetch env _ _ _) as [|[|]].
Qed.

Lemma population_grows_by_joins_only_witness :
  let e := Join "c1" (joinData "A" "Ann" "R2") in
  NoDup (Js.keys beaInR2) ∧
  population beaInR2 = 1 ∧
  population (registry (handle e backendDown beaInR2)) = 2 ∧
  population (registry (handle e backendDown beaInR2)) ≤ S (population beaInR2).
Proof.
  intros e.
  assert (NoDup (Js.keys beaInR2)) as Hnd by apply NoDup_singleton.
  split_and!; [exact Hnd | reflexivity | reflexivity |].
  exact (proj1 (population_grows_by_joins_only e backendDown beaInR2 Hnd)).
Defined.

(** ** Disconnecting, again *)

Lemma roomsOf_cleaned sid (reg : Registry) : roomsOf sid (cleaned sid reg) = [].
Proof.
  apply roomsOf_nil. unfold cleaned.
  intros rid users ([k us] & E & _)%list_elem_of_fmap. cbn in E.
  simplify_eq. apply withoutSocket_clean.
Qed.

Lemma keys_cleaned sid (reg : Registry) :
  Js.keys (cleaned sid reg) = Js.keys reg.
Proof.
  unfold Js.keys, cleaned. rewrite <-list_fmap_compose.
  apply list_fmap_ext. by intros i [k us] _.
Qed.

Lemma disconnect_absent sid env (reg : Registry) :
  NoDup (Js.keys reg) → roomsOf sid reg = [] →
  disconnect sid env reg = idle reg.
Proof.
  intros Hnd Hnone. rewrite disconnect_forIn.
  destruct (disconnect_loop sid env reg [] Hnd)
    as (reg' & Hreg & _ & _ & _ & _ & Habsent).
  destruct (Habsent Hnone) as (Hout & Heff & ->). cbn [app] in *.
  destruct (forIn _ _ _ _) as [out reg'' effs]. cbn in *. by subst.
Qed.

(** X9. A disconnect that runs to its end leaves the connection in no
    room at all, so that the same disconnect handled once more does
    nothing: no room changes, no backend call, no broadcast. *)
Theorem disconnect_clears_the_connection sid env env' (reg : Registry) :
  NoDup (Js.keys reg) →
  outcome (disconnect sid env reg) = Returned () →
  roomsOf sid (registry (disconnect sid env reg)) = [] ∧
  disconnect sid env' (registry (disconnect sid env reg)) =
    {| outcome := Returned ();
       registry := registry (disconnect sid env reg);
       effects := [] |}.
Proof.
  intros Hnd Hret.
  assert (registry (disconnect sid env reg) = cleaned sid reg) as ->.
  { revert Hret. rewrite disconnect_forIn.
    destruct (disconnect_loop sid env reg [] Hnd)
      as (reg' & Hreg & _ & Hclean & _).
    cbn [app] in *. rewrite Hreg. by intros ->%Hclean. }
  split; [apply roomsOf_cleaned|].
  apply disconnect_absent; [by rewrite keys_cleaned | apply roomsOf_cleaned].
Qed.

Lemma disconnect_clears_the_connection_witness :
  let r := disconnect "c1" backendUp inTwoRooms in
  NoDup (Js.keys inTwoRooms) ∧
  outcome r = Returned () ∧
  roomsOf "c1" (registry r) = [] ∧
  disconnect "c1" backendDown (registry r) =
    {| outcome := Returned (); registry := registry r; effects := [] |}.
Proof.
  intros r.
  assert (NoDup (Js.keys inTwoRooms)) as Hnd.
  { apply NoDup_cons_2; [|apply NoDup_singleton].
    intros ?%list_elem_of_singleton. discriminate. }
  assert (outcome r = Returned ()) as Hret by reflexivity.
  split_and!; [exact Hnd | exact Hret | |];
    apply (disconnect_clears_the_connection "c1" backendUp backendDown
             inTwoRooms Hnd Hret).
Defined.






(** ** Leaving, again *)


(** * The allowed origins *)

(** ** Splitting at the commas *)

Lemma splitOn_cons sep s : ∃ piece pieces, splitOn sep s = piece :: pieces.
Proof.
  induction s as [|c s (piece & pieces & IH)]; [by eexists _, _|].
  cbn. rewrite IH. destruct (Ascii.eqb c sep); by eexists _, _.
Qed.

Lemma splitOn_whole sep s : sep ∉ chars s → splitOn sep s = [s].
Proof.
  unfold chars. induction s as [|c s IH]; [done|].
  cbn. rewrite not_elem_of_cons. intros [Hne Hs].
  destruct (Ascii.eqb_spec c sep) as [->|_]; [done|]. by rewrite IH.
Qed.

Lemma splitOn_app sep s rest :
  sep ∉ chars s →
  splitOn sep (s +:+ String sep rest) = s :: splitOn sep rest.
Proof.
  unfold chars. induction s as [|c s IH].
  - intros _. change ("" +:+ String sep rest) with (String sep rest).
    cbn. by rewrite Ascii.eqb_refl.
  - change (String c s +:+ String sep rest)
      with (String c (s +:+ String sep rest)).
    cbn. rewrite not_elem_of_cons. intros [Hne Hs].
    destruct (Ascii.eqb_spec c sep) as [->|_]; [done|]. by rewrite IH.
Qed.

Lemma splitOn_pieces sep s piece :
  piece ∈ splitOn sep s →
  (sep ∉ chars piece) ∧ ∀ c, c ∈ chars piece → c ∈ chars s.
Proof.
  unfold chars. revert piece. induction s as [|c s IH]; intros piece.
  - intros ->%list_elem_of_singleton. split; [apply not_elem_of_nil | done].
  - cbn. destruct (splitOn_cons sep s) as (p0 & ps & E). rewrite E in *.
    destruct (Ascii.eqb_spec c sep) as [->|Hne].
    + intros [->|Hin]%elem_of_cons.
      * split; [apply not_elem_of_nil | by intros ? ?%elem_of_nil].
      * destruct (IH piece Hin) as [? Hsub]. split; [done|].
        intros d Hd. right. by apply Hsub.
    + intros [->|Hin]%elem_of_cons.
      * destruct (IH p0) as [Hp0 Hsub]; [left|]. cbn. split.
        -- rewrite not_elem_of_cons. split; [congruence | done].
        -- intros d [->|Hd]%elem_of_cons; [left | right; by apply Hsub].
      * destruct (IH piece) as [? Hsub]; [by right|]. split; [done|].
        intros d Hd. right. by apply Hsub.
Qed.

Lemma splitOn_covers sep s c :
  c ∈ chars s → c = sep ∨ ∃ piece, piece ∈ splitOn sep s ∧ c ∈ chars piece.
Proof.
  unfold chars. induction s as [|d s IH]; [by intros ?%elem_of_nil|].
  cbn. destruct (splitOn_cons sep s) as (p0 & ps & E). rewrite E in *.
  intros [->|Hc]%elem_of_cons.
  - destruct (Ascii.eqb_spec d sep) as [->|Hne]; [by left|].
    right. exists (String d p0). split; left.
  - destruct (IH Hc) as [->|(piece & Hin & Hp)]; [by left|]. right.
    destruct (Ascii.eqb_spec d sep) as [->|Hne].
    + exists piece. split; [by right | done].
    + apply elem_of_cons in Hin as [->|Hin].
      * exists (String d p0). split; [left | by right].
      * exists piece. split; [by right | done].
Qed.

(** ** What [origins] delivers *)

Lemma isWhiteSpace_comma : Js.isWhiteSpace "," = false.
Proof. reflexivity. Qed.

Lemma blank_no_comma s : blank s → ","%char ∉ chars s.
Proof.
  unfold blank. rewrite Forall_forall. intros Hs Hin.
  specialize (Hs _ Hin). by rewrite isWhiteSpace_comma in Hs.
Qed.

Lemma tidy_neat s : tidy s → neat (chars s) ∧ chars s ≠ [].
Proof.
  intros (Hne & Htrim & _). split; [|by rewrite chars_nil].
  rewrite <-Htrim, chars_trim. apply trimmed_neat.
Qed.

Lemma trim_written p :
  blank (pad_before p) → blank (pad_after p) → tidy (origin p) →
  Js.trim (written p) = origin p.
Proof.
  intros Hb Ha [Hneat Hne]%tidy_neat. apply chars_inj.
  unfold written. rewrite chars_trim, !chars_app.
  by apply trimmed_padded.
Qed.

Lemma origins_cons piece (pieces : list string) :
  filter (λ s, Js.truthy s = true) (Js.trim <$> piece :: pieces) =
  (if Js.truthy (Js.trim piece) then [Js.trim piece] else []) ++
  filter (λ s, Js.truthy s = true) (Js.trim <$> pieces).
Proof.
  rewrite fmap_cons, filter_cons.
  destruct (Js.truthy (Js.trim piece)) eqn:E.
  - by rewrite decide_True.
  - by rewrite decide_False.
Qed.



(** X13. Writing origins down and reading them back: a list of tidy
    origins, each with any white space before and after it, joined with
    commas, is read by [origins] as exactly that list, in that order. *)
Theorem origins_of_written (ps : list Padded) :
  Forall (λ p, blank (pad_before p) ∧ tidy (origin p) ∧ blank (pad_after p))
    ps →
  origins (Some (joinWith "," (written <$> ps))) = origin <$> ps.
Proof.
  unfold origins.
  change (default "" (Some (joinWith "," (written <$> ps))))
    with (joinWith "," (written <$> ps)).
  induction 1 as [|p ps (Hb & Ht & Ha) Hps IH].
  { done. }
  assert (","%char ∉ chars (written p)) as Hcomma.
  { unfold written. rewrite !chars_app, !not_elem_of_app.
    split_and!; [by apply blank_no_comma | apply Ht | by apply blank_no_comma]. }
  assert (Js.truthy (Js.trim (written p)) = true) as Htruthy.
  { rewrite trim_written by done. apply truthy_ne, Ht. }
  destruct ps as [|p2 ps].
  - cbn [fmap list_fmap joinWith].
    rewrite splitOn_whole by done.
    rewrite origins_cons, Htruthy, trim_written by done. done.
  - change (joinWith "," (written <$> p :: p2 :: ps))
      with (written p +:+ String "," (joinWith "," (written <$> p2 :: ps))).
    rewrite splitOn_app by done.
    rewrite origins_cons, Htruthy, trim_written by done.
    rewrite IH. done.
Qed.

Lemma origins_of_written_witness :
  let ps :=
    [{| pad_before := ""; origin := "http://localhost:5173";
        pad_after := "" |};
     {| pad_before := " "; origin := "https://mywebsite.com";
        pad_after := "  " |}] in
  Forall (λ p, blank (pad_before p) ∧ tidy (origin p) ∧ blank (pad_after p))
    ps ∧
  origins (Some "http://localhost:5173, https://mywebsite.com  ") =
    ["http://localhost:5173"; "https://mywebsite.com"].
Proof.
  intros ps.
  assert (Forall
    (λ p, blank (pad_before p) ∧ tidy (origin p) ∧ blank (pad_after p)) ps)
    as Hps.
  { repeat constructor; try discriminate; try reflexivity;
      by apply (bool_decide_unpack _). }
  split; [exact Hps|].
  exact (origins_of_written ps Hps).
Defined.

Lemma filter_none {A} (P : A → Prop) `{!∀ x, Decision (P x)} (l : list A) :
  filter P l = [] ↔ Forall (λ x, ¬ P x) l.
Proof.
  induction l as [|x l IH]; [by split|].
  rewrite filter_cons, Forall_cons. destruct (decide (P x)).
  - split; [done | by intros [? _]].
  - rewrite IH. split; [done | by intros [_ ?]].
Qed.

(** X14. [origins] delivers nothing exactly when there is nothing to
    deliver: the variable is not set, or all it holds is commas and white
    space. *)
Theorem origins_nil_iff ORIGIN :
  origins ORIGIN = [] ↔
  Forall (λ c, c = ","%char ∨ Js.isWhiteSpace c = true)
    (chars (default "" ORIGIN)).
Proof.
  unfold origins. rewrite filter_none, Forall_fmap, !Forall_forall. split.
  - intros Hpieces c Hc.
    destruct (splitOn_covers "," _ c Hc) as [->|(piece & Hin & Hp)];
      [by left|].
    right. specialize (Hpieces piece Hin). cbn in Hpieces.
    assert (Js.trim piece = "") as Hblank%trim_empty.
    { apply dec_stable. by intros ?%truthy_ne. }
    unfold blank in Hblank. rewrite Forall_forall in Hblank. by apply Hblank.
  - intros Hchars piece Hin. cbn.
    destruct (splitOn_pieces _ _ _ Hin) as [Hcomma Hsub].
    assert (blank piece) as Hblank%trim_empty.
    { unfold blank. apply Forall_forall. intros c Hc.
      destruct (Hchars c (Hsub c Hc)) as [->|?]; done. }
    by rewrite Hblank.
Qed.

Lemma origins_nil_iff_witness :
  Forall (λ c, c = ","%char ∨ Js.isWhiteSpace c = true)
    (chars (default "" (Some " , ,, "))) ∧
  origins (Some " , ,, ") = [] ∧ origins None = [].
Proof.
  assert (Forall (λ c, c = ","%char ∨ Js.isWhiteSpace c = true)
            (chars (default "" (Some " , ,, ")))) as H.
  { repeat constructor; (by left) || (by right). }
  split_and!; [exact H | |].
  - exact (proj2 (origins_nil_iff (Some " , ,, ")) H).
  - apply (proj2 (origins_nil_iff None)). constructor.
Defined.

(** * More on the chat relay and the backend calls *)

Lemma chat_only_effects sid payload env (reg : Registry) :
  effects (chatMessage sid payload env reg) = [] ∨
  ∃ out,
    effects (chatMessage sid payload env reg) = [LogRelayedChat out] ∨
    ∃ rid,
      effects (chatMessage sid payload env reg) =
        [EmitChatMessage rid out; LogRelayedChat out].
Proof.
  destruct (Js.truthy_opt (Js.trim <$> (payload ≫= cm_message))) eqn:E.
  - destruct payload as [payload|]; [|done]. cbn in E.
    destruct (cm_message payload) as [msg|] eqn:Hm; [|done].
    rewrite (chatMessage_run _ _ msg) by done. cbn zeta.
    right. eexists.
    destruct (Js.truthy_opt (fst <$> findSender sid (Js.keys reg) reg)); cbn.
    + right. by eexists.
    + by left.
  - rewrite chatMessage_invalid by done. by left.
Qed.

(** X15. The chat handler never throws, and what it logs is what it
    sends: it does nothing, or it logs one message, having sent exactly
    that message to at most one room just before.  The text of any
    message it logs or sends is the text of the payload without the white
    space at its two ends, and it is not empty. *)
Theorem chat_logs_what_it_sends sid payload env (reg : Registry) :
  let r := chatMessage sid payload env reg in
  outcome r = Returned () ∧
  (effects r = [] ∨
   ∃ out p msg lead trail,
     payload = Some p ∧ cm_message p = Some msg ∧
     msg = lead +:+ out_message out +:+ trail ∧ blank lead ∧ blank trail ∧
     neat (chars (out_message out)) ∧ out_message out ≠ "" ∧
     (effects r = [LogRelayedChat out] ∨
      ∃ rid, effects r = [EmitChatMessage rid out; LogRelayedChat out])).
Proof.
  cbn zeta.
  destruct (Js.truthy_opt (Js.trim <$> (payload ≫= cm_message))) eqn:E.
  - destruct payload as [payload|]; [|done]. cbn in E.
    destruct (cm_message payload) as [msg|] eqn:Hm; [|done].
    rewrite (chatMessage_run _ _ msg) by done. cbn zeta.
    split; [done|]. right.
    set (found := findSender sid (Js.keys reg) reg).
    destruct (trim_padding msg)
      as (lead & trail & Hpad & Hlead & Htrail & Hneat).
    exists {| out_userId := cm_userId payload;
              out_message := Js.trim msg;
              out_timestamp := default (now env) (cm_timestamp payload);
              out_name := (snd <$> found) ≫= name;
              out_photo := (snd <$> found) ≫= photo |},
      payload, msg, lead, trail.
    cbn [out_message effects].
    split_and!; [done..| by apply truthy_ne |].
    destruct (Js.truthy_opt (fst <$> found)); cbn.
    + right. by eexists.
    + by left.
  - rewrite chatMessage_invalid by done. split; [done | by left].
Qed.

Lemma chat_logs_what_it_sends_witness :
  let r :=
    chatMessage "c9"
      (Some {| cm_userId := "Z"; cm_message := Some "  hi  ";
               cm_timestamp := Some "t0" |}) backendUp beaInR2 in
  effects r =
    [LogRelayedChat
       {| out_userId := "Z"; out_message := "hi"; out_timestamp := "t0";
          out_name := None; out_photo := None |}] ∧
  outcome r = Returned () ∧
  (effects r = [] ∨
   ∃ out p msg lead trail,
     Some {| cm_userId := "Z"; cm_message := Some "  hi  ";
             cm_timestamp := Some "t0" |} = Some p ∧
     cm_message p = Some msg ∧
     msg = lead +:+ out_message out +:+ trail ∧ blank lead ∧ blank trail ∧
     neat (chars (out_message out)) ∧ out_message out ≠ "" ∧
     (effects r = [LogRelayedChat out] ∨
      ∃ rid, effects r = [EmitChatMessage rid out; LogRelayedChat out])).
Proof.
  intros r. split; [reflexivity|].
  exact (chat_logs_what_it_sends "c9" _ backendUp beaInR2).
Defined.

(** X16. Which event calls the backend, and how.  Every backend call of a
    handler is a POST.  A join calls only add-participant, with the room
    id, user id and name of its payload; a disconnect and an explicit
    leave call only remove-participant, the leave for the room it names; a
    chat message calls nothing, nor does a join or a leave that comes
    without a payload.  A join and a leave make one call at most. *)
Theorem backend_calls_by_event e env (reg : Registry) :
  NoDup (Js.keys reg) →
  (∀ m p body, Fetch m p body ∈ effects (handle e env reg) →
     m = "POST" ∧
     match e with
     | Join _ userData =>
         p = addParticipant ∧
         ud_roomId userData = Some (meetingId body) ∧
         ud_userId userData = Some (p_userId body) ∧
         ud_name userData = p_name body
     | Disconnect _ => p = removeParticipant
     | Leave _ roomId =>
         p = removeParticipant ∧ roomId = Some (meetingId body)
     | Chat _ _ | JoinBare _ | LeaveBare _ => False
     end) ∧
  match e with
  | Disconnect _ => True
  | _ => length (fetches (effects (handle e env reg))) ≤ 1
  end.
Proof.
  intros Hnd.
  destruct e as [sid userData|sid|sid|sid payload|sid roomId|sid]; cbn.
  2, 6: split; [by intros ??? ?%elem_of_nil | rewrite fetches_nil; cbn; lia].
  - destruct (Js.truthy_opt (ud_userId userData)) eqn:Hu.
    2:{ rewrite newUser_invalid by auto. cbn.
        split; [by intros ??? ?%elem_of_nil | rewrite fetches_nil; cbn; lia]. }
    destruct (Js.truthy_opt (ud_roomId userData)) eqn:Hr.
    2:{ rewrite newUser_invalid by auto. cbn.
        split; [by intros ??? ?%elem_of_nil | rewrite fetches_nil; cbn; lia]. }
    destruct (ud_userId userData) as [uid|] eqn:Eu; [|done].
    destruct (ud_roomId userData) as [roomId|] eqn:Er; [|done].
    cbn in Hu, Hr.
    destruct (read_Inherited_dec roomId reg) as [Hread|Hread].
    { rewrite (newUser_blocked sid userData uid roomId) by done. cbn.
      split; [by intros ??? ?%elem_of_nil | rewrite fetches_nil; cbn; lia]. }
    rewrite (newUser_run sid userData uid roomId) by done. cbn zeta.
    destruct (Js.findIndex _ _); [|destruct (Js.some _ _);
      [|destruct (fetch env _ _ _) as [|[|]]]]; cbn;
      rewrite ?fetches_cons, ?fetches_nil; cbn; (split; [|lia]);
      intros m p body Hin; repeat (apply elem_of_cons in Hin as [Hin|Hin]);
      try (by apply elem_of_nil in Hin); by simplify_eq.
  - split; [|done]. rewrite disconnect_forIn.
    destruct (disconnect_loop sid env reg [] Hnd)
      as (reg' & _ & _ & _ & Hc & _).
    intros m p body Hin. by destruct (Hc m p body Hin) as (? & ? & _).
  - destruct (chat_only_effects sid payload env reg) as [E|[out [E|[rid E]]]];
      rewrite E; rewrite ?fetches_cons, ?fetches_nil; cbn; (split; [|lia]);
      intros m p body Hin; repeat (apply elem_of_cons in Hin as [Hin|Hin]);
      try (by apply elem_of_nil in Hin); by simplify_eq.
  - destruct (Js.truthy_opt roomId) eqn:Ht.
    2:{ rewrite leaveCall_untracked by auto. cbn.
        split; [by intros ??? ?%elem_of_nil | rewrite fetches_nil; cbn; lia]. }
    destruct roomId as [k|]; [|done]. cbn in Ht.
    destruct (Js.get k reg) as [users|] eqn:Hget.
    2:{ destruct (leaveCall_absent sid k env reg Ht Hget) as [-> | ->]; cbn;
          (split; [by intros ??? ?%elem_of_nil
                  | rewrite fetches_nil; cbn; lia]). }
    rewrite (leaveCall_run sid k env reg users) by done. cbn zeta.
    destruct (Js.find _ _); [destruct (fetch env _ _ _) as [|[|]]|]; cbn;
      rewrite ?fetches_cons, ?fetches_nil; cbn; (split; [|lia]);
      intros m p body Hin; repeat (apply elem_of_cons in Hin as [Hin|Hin]);
      try (by apply elem_of_nil in Hin); by simplify_eq.
Qed.

Lemma backend_calls_by_event_witness :
  let e := Join "c1" (joinData "A" "Ann" "R1") in
  NoDup (Js.keys beaInR2) ∧
  Fetch "POST" addParticipant
    {| meetingId := "R1"; p_userId := "A"; p_name := Some "Ann" |} ∈
    effects (handle e backendUp beaInR2) ∧
  length (fetches (effects (handle e backendUp beaInR2))) ≤ 1.
Proof.
  intros e.
  assert (NoDup (Js.keys beaInR2)) as Hnd by apply NoDup_singleton.
  split_and!; [exact Hnd | left |].
  exact (proj2 (backend_calls_by_event e backendUp beaInR2 Hnd)).
Defined.

(** X17. One entry per user is kept by every event but one kind.  On a
    registry with distinct room ids in which no room holds a user id
    twice, a disconnect, a leave, a chat message and a join leave it so,
    provided the join does not come from a connection that is already in
    the room under another user id and now announces a user id that some
    entry of the room has. *)
Theorem userIds_stay_unique e env (reg : Registry) :
  NoDup (Js.keys reg) → userIdsUnique reg →
  (∀ sid userData uid roomId users u,
     e = Join sid userData →
     ud_userId userData = Some uid → ud_roomId userData = Some roomId →
     Js.get roomId reg = Some users →
     Js.find (λ user, socketId user = sid) users = Some u →
     userId u = uid ∨ Forall (λ v, userId v ≠ uid) users) →
  userIdsUnique (registry (handle e env reg)).
Proof.
  intros Hnd Huniq Hjoin. destruct e as [sid userData| | | | |].
  - apply newUser_keeps_userIds_unique; [done|].
    intros uid roomId users u. by apply Hjoin.
  - by apply removals_keep_userIds_unique.
  - by apply removals_keep_userIds_unique.
  - by apply removals_keep_userIds_unique.
  - by apply removals_keep_userIds_unique.
  - by apply removals_keep_userIds_unique.
Qed.

Lemma userIds_stay_unique_witness :
  let e := Join "c3" (joinData "A" "Ann" "R") in
  NoDup (Js.keys twoUsers) ∧
  userIdsUnique twoUsers ∧
  registry (handle e backendUp twoUsers) =
    [("R", [member "c3" "A" "Ann"; member "c2" "B" "Bea"])] ∧
  userIdsUnique (registry (handle e backendUp twoUsers)).
Proof.
  intros e.
  assert (NoDup (Js.keys twoUsers)) as Hnd by apply NoDup_singleton.
  assert (userIdsUnique twoUsers) as Huniq.
  { intros rid users [E|[]%elem_of_nil]%elem_of_cons. simplify_eq. cbn.
    apply NoDup_cons_2; [|apply NoDup_singleton].
    intros ?%list_elem_of_singleton. discriminate. }
  split_and!; [exact Hnd | exact Huniq | reflexivity |].
  apply (userIds_stay_unique e backendUp twoUsers Hnd Huniq).
  intros sid userData uid roomId users u E Hu Hr Hget Hfind.
  unfold e in E. simplify_eq. cbn in Hu, Hr. simplify_eq.
  vm_compute in Hget. simplify_eq.
Defined.

(** * The backend client *)

Section ClientFacts.
Context {B J : Type}.
Context (stringify : B → string) (emptyObject : J).
Context (message : J → ApiClient.MessageRead).
Context (noMessage : message emptyObject = ApiClient.NoMessage).
Context (BACKEND_USER_URL : option string).
Context (net : string → ApiClient.RequestInit → ApiClient.NetResult J).

(** X18. [request] resolves exactly when [fetch] brought a response with
    an ok status, and then with the parsed body, or with the empty object
    when the body does not parse: a body that is not JSON never turns a
    success into a failure. *)
Theorem request_resolves_iff_ok method path body token value :
  ApiClient.request stringify emptyObject message BACKEND_USER_URL net
    method path body token = ApiClient.Resolves value ↔
  ∃ json,
    net (ApiClient.urlOf BACKEND_USER_URL path)
        (ApiClient.initOf stringify method body token) =
      ApiClient.NetResponds true json ∧
    value = default emptyObject json.
Proof.
  unfold ApiClient.request.
  destruct (net _ _) as [|[|] json]; split;
    try done; try (by intros (? & ? & _)).
  - intros ?. simplify_eq. by exists json.
  - intros (json' & ? & ->). by simplify_eq.
Qed.

(** X19. When [request] throws an [Error], its message is the words
    "Request failed" (the backend sent no message, an empty or otherwise
    falsy one, or a body that does not parse) or it is what the backend
    sent as message with its error status: a string, which is then not
    empty, or the text of a truthy value that is not a string, which may
    be empty. *)
Theorem request_error_has_a_message method path body token msg :
  ApiClient.request stringify emptyObject message BACKEND_USER_URL net
    method path body token = ApiClient.Rejects (ApiClient.Error msg) →
  msg = "Request failed" ∨
  ∃ err,
    net (ApiClient.urlOf BACKEND_USER_URL path)
        (ApiClient.initOf stringify method body token) =
      ApiClient.NetResponds false (Some err) ∧
    (message err = ApiClient.Message msg ∧ msg ≠ "" ∨
     message err = ApiClient.OtherMessage (Some msg)).
Proof.
  unfold ApiClient.request, ApiClient.failureOf.
  destruct (net _ _) as [|[|] [err|]]; try done; cbn.
  - destruct (message err) as [| |s|[text|]] eqn:Hmsg; try done.
    + intros ?. simplify_eq. by left.
    + destruct (Js.truthy s) eqn:Hs; intros ?; simplify_eq.
      * right. exists err. split; [done|]. left. split; [done|].
        by apply truthy_ne.
      * by left.
    + intros ?. simplify_eq. right. exists err. split; [done | by right].
  - rewrite noMessage. intros ?. simplify_eq. by left.
Qed.

(** X20. The headers of a request: always the JSON content type, first;
    an [Authorization] header exactly when a token that is not empty was
    given, and then as a bearer token; no header twice. *)
Theorem authorization_only_with_token token :
  head (ApiClient.headersOf token) =
    Some ("Content-Type", "application/json") ∧
  NoDup (ApiClient.headersOf token).*1 ∧
  ∀ value,
    ("Authorization", value) ∈ ApiClient.headersOf token ↔
    ∃ t, token = Some t ∧ t ≠ "" ∧ value = "Bearer " +:+ t.
Proof.
  unfold ApiClient.headersOf. destruct token as [[|c t]|]; cbn.
  - split_and!; [done | apply NoDup_singleton |]. intros value. split.
    + intros [?|[]%elem_of_nil]%elem_of_cons. done.
    + by intros (t & ? & ? & _); simplify_eq.
  - split_and!; [done | |].
    + apply NoDup_cons_2; [|apply NoDup_singleton].
      intros ?%list_elem_of_singleton. discriminate.
    + intros value. split.
      * intros [?|[?|[]%elem_of_nil]%elem_of_cons]%elem_of_cons; [done|].
        simplify_eq. by eexists.
      * intros (t' & ? & _ & ->). simplify_eq. right. left.
  - split_and!; [done | apply NoDup_singleton |]. intros value. split.
    + intros [?|[]%elem_of_nil]%elem_of_cons. done.
    + by intros (t & ? & _).
Qed.

End ClientFacts.

(** A backend that answers with an error status and the body
    [{"message": []}], and one whose body does not parse. *)
Lemma request_error_has_a_message_witness :
  let message : option string → ApiClient.MessageRead :=
    λ j, match j with
         | Some text => ApiClient.OtherMessage (Some text)
         | None => ApiClient.NoMessage
         end in
  let request net :=
    ApiClient.request (B := Participant) (λ _, "{}") None message None net
      "POST" addParticipant None None in
  let emptyArray := λ _ _, ApiClient.NetResponds false (Some (Some "")) in
  let noJson := λ _ _, ApiClient.NetResponds false None in
  message None = ApiClient.NoMessage ∧
  request emptyArray = ApiClient.Rejects (ApiClient.Error "") ∧
  request noJson = ApiClient.Rejects (ApiClient.Error "Request failed") ∧
  ("" = "Request failed" ∨
   ∃ err,
     emptyArray
       (ApiClient.urlOf None addParticipant)
       (ApiClient.initOf (B := Participant) (λ _, "{}") "POST" None None) =
       ApiClient.NetResponds false (Some err) ∧
     (message err = ApiClient.Message "" ∧ "" ≠ "" ∨
      message err = ApiClient.OtherMessage (Some ""))).
Proof.
  intros message request emptyArray noJson.
  assert (message None = ApiClient.NoMessage) as Hno by reflexivity.
  assert (request emptyArray = ApiClient.Rejects (ApiClient.Error ""))
    as Hrej by reflexivity.
  split_and!; [exact Hno | exact Hrej | reflexivity |].
  exact (request_error_has_a_message (λ _, "{}") None message Hno None
           emptyArray "POST" addParticipant None None _ Hrej).
Defined.

(** X21. The backend calls of the handlers, seen through the client.  With
    the surroundings that [apiClient] gives a handler, the call a handler
    makes returns exactly when [apiClient.post], given the body and no
    token, resolves, and throws exactly when it rejects; the request that
    goes out carries the JSON content type as its only header. *)
Theorem handlers_call_through_the_client {J : Type}
    (stringify : Participant → string) (emptyObject : J)
    (message : J → ApiClient.MessageRead) BACKEND_USER_URL net clock
    path body (reg : Registry) :
  let env := envOf stringify BACKEND_USER_URL net clock in
  let settled :=
    ApiClient.post stringify emptyObject message BACKEND_USER_URL net
      path (Some body) None in
  (outcome (post path body env reg) = Returned () ↔
   ∃ value, settled = ApiClient.Resolves value) ∧
  (outcome (post path body env reg) = Thrown ↔
   ∃ why, settled = ApiClient.Rejects why) ∧
  ApiClient.ri_headers (ApiClient.initOf stringify "POST" (Some body) None) =
    [("Content-Type", "application/json")].
Proof.
  cbn zeta. unfold post, request, ApiClient.post, ApiClient.request, envOf.
  cbn [outcome fetch].
  destruct (net _ _) as [|[|] json]; cbn; split_and!; try done;
    split; try done; try (by intros [? ?]); intros _; by eexists.
Qed.
